(** * heatsink: thermal controller and software-PWM fan driver

    A shallow embedding of the Go packages [heatsink] (heatsink.go,
    dutycyclers.go, config.go, options.go, errors.go) and
    [heatsink/fanpwm] (fanpwm.go, driver_internal.go, options.go).

    - Go's [float64] is IEEE 754 binary64; it is modelled by the
      standard library's [spec_float] with precision 53 and maximal
      exponent 1024, so every arithmetic operation rounds as the
      hardware does and comparisons with NaN are false.
    - [time.Duration] is an [int64] count of nanoseconds, modelled as
      [Z] with the two's-complement wrap-around written out.
    - Go's [error] is [option Err]; [None] is [nil].
    - Goroutines and mutexes: every exported method that takes a mutex
      for its whole body is one atomic transition of the model; the
      background PWM goroutine is the transition [bgCycle]. *)

From Stdlib Require Import ZArith List String Bool Lia PeanoNat.
From Stdlib Require Import SpecFloat.
Import ListNotations.

Local Open Scope Z_scope.

(* ================================================================= *)
(** ** float64 *)

Module F64.

Definition float64 := spec_float.

Definition prec : Z := 53.
Definition emax : Z := 1024.

Definition add : float64 -> float64 -> float64 := SFadd prec emax.
Definition sub : float64 -> float64 -> float64 := SFsub prec emax.
Definition mul : float64 -> float64 -> float64 := SFmul prec emax.
Definition div : float64 -> float64 -> float64 := SFdiv prec emax.

(** Go's comparison operators on float64: all are false when an
    operand is NaN, and the two zeros compare equal. *)
Definition ltb (x y : float64) : bool := SFltb x y.
Definition leb (x y : float64) : bool := SFleb x y.
Definition gtb (x y : float64) : bool := SFltb y x.
Definition geb (x y : float64) : bool := SFleb y x.
Definition eqb (x y : float64) : bool := SFeqb x y.

Definition is_nan (x : float64) : bool :=
  match x with S754_nan => true | _ => false end.

(** [float64(n)] for an integer [n]: the nearest binary64, ties to even. *)
Definition of_Z (n : Z) : float64 := binary_normalize prec emax n 0 false.

(** A decimal literal [n / 10^k], correctly rounded, as the Go compiler
    rounds a floating-point constant; used for test inputs. *)
Definition of_dec (n : Z) (k : nat) : float64 := div (of_Z n) (of_Z (10 ^ Z.of_nat k)).

Definition zero : float64 := S754_zero false.
Definition one : float64 := S754_finite false 4503599627370496 (-52).

(** [math.SmallestNonzeroFloat64] = 2^-1074 and [math.MaxFloat64] =
    (2^53 - 1) * 2^971. *)
Definition SmallestNonzeroFloat64 : float64 := S754_finite false 1 (-1074).
Definition MaxFloat64 : float64 := S754_finite false 9007199254740991 971.

(** [math.Pi] = 0x400921FB54442D18. *)
Definition Pi : float64 := S754_finite false 7074237752028440 (-51).

(** The integer part of a finite float, rounding toward zero. *)
Definition trunc (x : float64) : option Z :=
  match x with
  | S754_zero _ => Some 0
  | S754_finite s m e => Some (cond_Zopp s (Z.shiftl (Zpos m) e))
  | S754_infinity _ | S754_nan => None
  end.



(** A key that orders the numbers as Go's comparisons do: the class
    (negative infinity, negative, zero, positive, positive infinity),
    then exponent and mantissa. *)
Definition rank (x : float64) : Z * Z * Z :=
  match x with
  | S754_infinity true => (-2, 0, 0)
  | S754_finite true m e => (-1, - e, - Zpos m)
  | S754_zero _ => (0, 0, 0)
  | S754_nan => (0, 0, 0)
  | S754_finite false m e => (1, e, Zpos m)
  | S754_infinity false => (2, 0, 0)
  end.

Definition lt3 (a b : Z * Z * Z) : Prop :=
  let '(a1, a2, a3) := a in
  let '(b1, b2, b3) := b in
  a1 < b1 \/ (a1 = b1 /\ (a2 < b2 \/ (a2 = b2 /\ a3 < b3))).

End F64.

Import F64.

(* ================================================================= *)
(** ** Errors (errors.go, config.go) *)

(** The error values of the two packages.  [Wrap p e] is
    [fmt.Errorf(p + ": %w", e)]; [MultiErrs] is the slice type
    [multiErrs] of heatsink.go; [ErrIO] stands for any error produced
    by a collaborator (a file, a sensor, a fan). *)
#[warnings="-register-all"]
Inductive Err : Type :=
| ErrControllerStopped
| ErrFanDriverClosed
| ErrThermoSensorClosed
| errNoConfig
| errNoFan
| errNoSensors
| errNilSensor
| errBadTemps
| ErrIO (msg : string)
| Wrap (prefix : string) (e : Err)
| MultiErrs (es : list Err).

Definition error := option Err.



Fixpoint isControllerStopped (e : Err) : bool :=
  match e with
  | ErrControllerStopped => true
  | Wrap _ e' => isControllerStopped e'
  | _ => false
  end.

(** [int64] wrap-around. *)
Definition wrap64 (z : Z) : Z := (z + 2 ^ 63) mod 2 ^ 64 - 2 ^ 63.

Definition in_int64 (z : Z) : bool := (- 2 ^ 63 <=? z) && (z <? 2 ^ 63).

(* ================================================================= *)
(** ** Package fanpwm *)

Module Fanpwm.

(** What the driver does to the outside world, in order: the calls on
    its device file ([wrOnlyFile]: Seek, Truncate, Write, Close) and the
    [time.Sleep] calls that shape the pulse. *)
Inductive Event : Type :=
| Seek (off whence : Z)
| Truncate (size : Z)
| Write (b : string)
| CloseFile
| Sleep (d : Z).

(** The goroutine started by [startAsyncNopPWM] or [startAsyncPWM];
    [TaskExited] once [Close] has waited for it. *)
Inductive Task : Type :=
| TaskNop
| TaskPWM (dn up : Z)
| TaskExited.

(** The [Driver] struct.  [closeSignal] is [true] once that channel is
    closed.  The device file is represented by [history], the calls
    made on it so far, and [devFault], which decides for the n-th event
    whether the call fails (as the test suite's fakeFile does with its
    error queues). *)
Record Driver : Type := mkDriver {
  name : string;
  minSpeedVal : string;
  maxSpeedVal : string;
  pwmPeriod : Z;
  closeSignal : bool;
  task : Task;
  history : list Event;
  devFault : nat -> option Err
}.

Definition setTask (t : Task) (dr : Driver) : Driver :=
  mkDriver (name dr) (minSpeedVal dr) (maxSpeedVal dr) (pwmPeriod dr)
           (closeSignal dr) t (history dr) (devFault dr).

Definition setClosed (dr : Driver) : Driver :=
  mkDriver (name dr) (minSpeedVal dr) (maxSpeedVal dr) (pwmPeriod dr)
           true (task dr) (history dr) (devFault dr).

Definition record (ev : Event) (dr : Driver) : Driver :=
  mkDriver (name dr) (minSpeedVal dr) (maxSpeedVal dr) (pwmPeriod dr)
           (closeSignal dr) (task dr) (history dr ++ [ev]) (devFault dr).

(** One call on the device file: it is recorded, and fails if the
    fault oracle says so. *)
Definition fileCall (ev : Event) (dr : Driver) : error * Driver :=
  (devFault dr (List.length (history dr)), record ev dr).

Definition sleep (d : Z) (dr : Driver) : Driver := record (Sleep d) dr.

Definition setSpeed (val : string) (dr : Driver) : error * Driver :=
  let (e1, dr1) := fileCall (Seek 0 0) dr in
  match e1 with
  | Some e => (Some e, dr1)
  | None =>
      let (e2, dr2) := fileCall (Truncate 0) dr1 in
      match e2 with
      | Some e => (Some e, dr2)
      | None => fileCall (Write val) dr2
      end
  end.

Definition setSpeedMax (dr : Driver) : error * Driver := setSpeed (maxSpeedVal dr) dr.
Definition setSpeedMin (dr : Driver) : error * Driver := setSpeed (minSpeedVal dr) dr.

Definition isClosed (dr : Driver) : bool := closeSignal dr.

(** What one attempt to set a level does to the history: the three
    calls, cut short at the first one that fails. *)
Definition speedCalls (val : string) : list Event := [Seek 0 0; Truncate 0; Write val].

Definition extend (evs : list Event) (dr : Driver) : Driver :=
  mkDriver (name dr) (minSpeedVal dr) (maxSpeedVal dr) (pwmPeriod dr)
           (closeSignal dr) (task dr) (history dr ++ evs) (devFault dr).

Section Platform.

(** Go leaves the conversion of a float64 that int64 cannot represent
    (NaN, infinities, magnitudes of 2^63 and more) to the
    implementation; [convUndefined] is the value the platform gives. *)
Variable convUndefined : float64 -> Z.

(** [time.Duration(x)] for a float64 [x]: truncation toward zero. *)
Definition Duration_of_float64 (x : float64) : Z :=
  match trunc x with
  | Some z => if in_int64 z then z else wrap64 (convUndefined x)
  | None => wrap64 (convUndefined x)
  end.

Definition clampRatio (dcRatio : float64) : float64 :=
  if gtb dcRatio one then one
  else if ltb dcRatio zero then zero
  else dcRatio.

Definition calcDurations (dr : Driver) (dcRatio : float64) : Z * Z * bool :=
  let dcRatio := clampRatio dcRatio in
  let up := Duration_of_float64 (mul dcRatio (of_Z (pwmPeriod dr))) in
  let dn := wrap64 (pwmPeriod dr - up) in
  let isFlatPulse := (up =? pwmPeriod dr) || (dn =? pwmPeriod dr) in
  (dn, up, isFlatPulse).

Definition tryGenSinglePulse (dn up : Z) (dr : Driver) : error * Driver :=
  let (err, dr1) := setSpeedMin dr in
  match err with
  | Some e => (Some (Wrap "failed to set min speed" e), dr1)
  | None =>
      if dn =? pwmPeriod dr then (None, dr1)
      else
        let dr2 := sleep dn dr1 in
        let (err, dr3) := setSpeedMax dr2 in
        match err with
        | Some e => (Some (Wrap "failed to set max speed" e), dr3)
        | None =>
            if up =? pwmPeriod dr then (None, dr3)
            else (None, sleep up dr3)
        end
  end.

Definition startAsyncNopPWM (dr : Driver) : Driver := setTask TaskNop dr.
Definition startAsyncPWM (dn up : Z) (dr : Driver) : Driver := setTask (TaskPWM dn up) dr.

(** One turn of the loop of the goroutine of [startAsyncPWM]; the
    errors of the two writes are dropped.  The goroutine of
    [startAsyncNopPWM] only waits, and an exited goroutine does nothing. *)
Definition bgCycle (dr : Driver) : Driver :=
  match task dr with
  | TaskPWM dn up =>
      let dr1 := snd (setSpeedMin dr) in
      let dr2 := sleep dn dr1 in
      let dr3 := snd (setSpeedMax dr2) in
      sleep up dr3
  | TaskNop | TaskExited => dr
  end.

Fixpoint bgCycles (n : nat) (dr : Driver) : Driver :=
  match n with
  | O => dr
  | S n' => bgCycles n' (bgCycle dr)
  end.

(** [SetDutyCycle].  The send on [unsetCurPWM] retires the running
    goroutine; with no goroutine left to receive, the send never
    returns: the result is [None]. *)
Definition SetDutyCycle (dcRatio : float64) (dr : Driver) : option (error * Driver) :=
  if isClosed dr then Some (Some ErrFanDriverClosed, dr)
  else
    match task dr with
    | TaskExited => None
    | TaskNop | TaskPWM _ _ =>
        let '(durationDn, durationUp, isFlatPulse) := calcDurations dr dcRatio in
        let (err, dr1) := tryGenSinglePulse durationDn durationUp dr in
        match err with
        | Some e => Some (Some (Wrap "generating initial pulse" e), startAsyncNopPWM dr1)
        | None =>
            if isFlatPulse then Some (None, startAsyncNopPWM dr1)
            else Some (None, startAsyncPWM durationDn durationUp dr1)
        end
    end.

(** [Close].  After [close(dr.closeSignal)] and [dr.wg.Wait()] no
    goroutine of the driver is left. *)
Definition Close (dr : Driver) : error * Driver :=
  if isClosed dr then (Some ErrFanDriverClosed, dr)
  else
    let dr0 := setTask TaskExited (setClosed dr) in
    let (err1, dr1) := setSpeedMax dr0 in
    let (err2, dr2) := fileCall CloseFile dr1 in
    match err1, err2 with
    | Some e1, _ => (Some (Wrap "failed to set fan speed to max while closing driver" e1), dr2)
    | None, Some e2 => (Some (Wrap "failed to close device file while closing driver" e2), dr2)
    | None, None => (None, dr2)
    end.

Definition Name (dr : Driver) : string := name dr.

(** What a client and the scheduler can do with a driver. *)
Inductive Action : Type :=
| ActSetDutyCycle (dcRatio : float64)
| ActClose
| ActBgCycle.

(** Runs the actions in order; the result lists what each method call
    returned.  [None]: some call never returned. *)
Fixpoint run (acts : list Action) (dr : Driver) : option (list error * Driver) :=
  match acts with
  | [] => Some ([], dr)
  | ActSetDutyCycle r :: rest =>
      match SetDutyCycle r dr with
      | None => None
      | Some (e, dr1) =>
          match run rest dr1 with
          | None => None
          | Some (es, dr2) => Some (e :: es, dr2)
          end
      end
  | ActClose :: rest =>
      let (e, dr1) := Close dr in
      match run rest dr1 with
      | None => None
      | Some (es, dr2) => Some (e :: es, dr2)
      end
  | ActBgCycle :: rest => run rest (bgCycle dr)
  end.

End Platform.

(** *** options.go and the constructor *)

Definition Option := Driver -> Driver.

Definition millisecond : Z := 1000000.




Definition setName (n : string) (dr : Driver) : Driver :=
  mkDriver n (minSpeedVal dr) (maxSpeedVal dr) (pwmPeriod dr)
           (closeSignal dr) (task dr) (history dr) (devFault dr).




Definition OptName (n : string) : Option :=
  fun dr => if String.eqb n "" then dr else setName n dr.

Fixpoint applyOptions (options : list (option Option)) (dr : Driver) : Driver :=
  match options with
  | [] => dr
  | None :: rest => applyOptions rest dr
  | Some applyOption :: rest => applyOptions rest (applyOption dr)
  end.

(** [New].  [opened] is the outcome of [os.OpenFile]: an error, or the
    fault oracle of the opened device file. *)
Definition New (filename : string) (opened : Err + (nat -> option Err))
    (options : list (option Option)) : option Driver * error :=
  match opened with
  | inl err => (None, Some err)
  | inr fault =>
      let driver := mkDriver filename "0" "255" (50 * millisecond) false TaskExited [] fault in
      let driver := applyOptions options driver in
      (Some (startAsyncNopPWM driver), None)
  end.

End Fanpwm.

(* ================================================================= *)
(** ** Package thermosense *)

Module Thermosense.

(** The calls a sensor makes on its device file ([rdOnlyFile]: Seek,
    Read through [fmt.Fscanf], Close). *)
Inductive Event : Type :=
| Seek (off whence : Z)
| Scan
| CloseFile.

(** The [Sensor] struct.  As for the fan driver, the device file is
    the list of the calls made on it so far, with two oracles for the
    n-th call: [devFault] says whether a Seek or a Close fails, and
    [devScan] what [fmt.Fscanf(devFile, "%d", &temp)] gives, an [int] or
    an error. *)
Record Sensor : Type := mkSensor {
  name : string;
  closed : bool;
  history : list Event;
  devFault : nat -> option Err;
  devScan : nat -> Z + Err
}.

Definition record (ev : Event) (s : Sensor) : Sensor :=
  mkSensor (name s) (closed s) (history s ++ [ev]) (devFault s) (devScan s).

Definition setClosed (s : Sensor) : Sensor :=
  mkSensor (name s) true (history s) (devFault s) (devScan s).

Definition setName (n : string) (s : Sensor) : Sensor :=
  mkSensor n (closed s) (history s) (devFault s) (devScan s).

Definition Inf : float64 := S754_infinity false.

(** [tempMilliDegCelsius.degCelsius], every operation rounded on its
    own. *)
Definition degCelsius (t : Z) : float64 :=
  let tf := of_Z t in
  let tempDeg := div tf (of_Z 1000) in
  let fraction := div (sub tf (mul tempDeg (of_Z 1000))) (of_Z 1000) in
  add tempDeg fraction.

Definition temperature (s : Sensor) : float64 * error * Sensor :=
  if closed s then (Inf, Some ErrThermoSensorClosed, s)
  else
    let s1 := record (Seek 0 0) s in
    match devFault s (List.length (history s)) with
    | Some err => (Inf, Some err, s1)
    | None =>
        let s2 := record Scan s1 in
        match devScan s (List.length (history s1)) with
        | inr err => (Inf, Some err, s2)
        | inl temp => (degCelsius temp, None, s2)
        end
    end.

Definition close (s : Sensor) : error * Sensor :=
  if closed s then (Some ErrThermoSensorClosed, s)
  else
    let s1 := setClosed s in
    let s2 := record CloseFile s1 in
    match devFault s (List.length (history s1)) with
    | Some err => (Some (Wrap "failed to close device file while closing sensor" err), s2)
    | None => (None, s2)
    end.

(** The exported methods take the mutex and call the internal ones. *)
Definition Temperature (s : Sensor) : float64 * error * Sensor := temperature s.
Definition Close (s : Sensor) : error * Sensor := close s.
Definition Name (s : Sensor) : string := name s.

Definition Option := Sensor -> Sensor.

Definition OptName (n : string) : Option :=
  fun s => if String.eqb n "" then s else setName n s.

Fixpoint applyOptions (options : list (option Option)) (s : Sensor) : Sensor :=
  match options with
  | [] => s
  | None :: rest => applyOptions rest s
  | Some applyOption :: rest => applyOptions rest (applyOption s)
  end.

(** [New].  [opened] is the outcome of [os.OpenFile]: an error, or the
    two oracles of the opened device file. *)
Definition New (filename : string) (opened : Err + (nat -> option Err) * (nat -> Z + Err))
    (options : list (option Option)) : option Sensor * error :=
  match opened with
  | inl err => (None, Some err)
  | inr (fault, scan) =>
      (Some (applyOptions options (mkSensor filename false [] fault scan)), None)
  end.

(** What a client can do with a sensor. *)
Inductive Action : Type :=
| ActTemperature
| ActClose.

(** Runs the calls in order; the result lists what each one returned,
    a [Close] being listed with the temperature [None]. *)
Fixpoint run (acts : list Action) (s : Sensor) : list (option float64 * error) * Sensor :=
  match acts with
  | [] => ([], s)
  | ActTemperature :: rest =>
      let '(temp, err, s1) := Temperature s in
      let (rs, s2) := run rest s1 in
      ((Some temp, err) :: rs, s2)
  | ActClose :: rest =>
      let (err, s1) := Close s in
      let (rs, s2) := run rest s1 in
      ((None, err) :: rs, s2)
  end.

End Thermosense.

(* ================================================================= *)
(** ** Package heatsink *)

Module Heatsink.

(** *** dutycyclers.go *)

Record dutyCyclerLinear : Type := mkLinear {
  lin_minTemp : float64;
  lin_maxTemp : float64;
  lin_tRange : float64
}.

Definition newDutyCyclerLinear (minTemp maxTemp : float64) : dutyCyclerLinear :=
  mkLinear minTemp maxTemp (sub maxTemp minTemp).

Record dutyCyclerPowPi : Type := mkPowPi {
  pow_minTemp : float64;
  pow_maxTemp : float64;
  pow_tRange : float64
}.

Definition newDutyCyclerPowPi (minTemp maxTemp : float64) : dutyCyclerPowPi :=
  mkPowPi minTemp maxTemp (sub maxTemp minTemp).

(** The interface [dutyCycler]. *)
Class dutyCycler (A : Type) : Type := { ratio : A -> float64 -> float64 }.

#[export] Instance dutyCycler_Linear : dutyCycler dutyCyclerLinear := {
  ratio dc temp :=
    if geb temp (lin_maxTemp dc) then one
    else if leb temp (lin_minTemp dc) then zero
    else div (sub temp (lin_minTemp dc)) (lin_tRange dc)
}.

(** The collaborators of a heatsink, seen from the controller.  A
    [ThermoSensor] or [FanDriver] interface value is a handle; the
    environment gives each handle its methods, acting on a state of the
    outside world of type [W]. *)
Definition ThermoSensor := nat.
Definition FanDriver := nat.

Record Env : Type := mkEnv {
  W : Type;
  sensorTemperature : ThermoSensor -> W -> float64 * error * W;
  sensorName : ThermoSensor -> string;
  sensorClose : ThermoSensor -> W -> error * W;
  fanSetDutyCycle : FanDriver -> float64 -> W -> error * W;
  fanName : FanDriver -> string;
  fanClose : FanDriver -> W -> error * W
}.

(** Every method call the controller makes on a collaborator, with
    what the call returned; the temperature it hands to its duty cycler,
    with the ratio it gets; and its sleeps. *)
Inductive Call : Type :=
| CallTemperature (s : ThermoSensor) (temp : float64) (err : error)
| CallSensorClose (s : ThermoSensor) (err : error)
| CallRatio (temp : float64) (dcRatio : float64)
| CallSetDutyCycle (f : FanDriver) (dcRatio : float64) (err : error)
| CallFanClose (f : FanDriver) (err : error)
| CallSleep (d : Z).

Inductive Level : Type := LevelError | LevelInfo.

Record LogEntry : Type := mkLog {
  level : Level;
  message : string;
  cause : error
}.

Section Controller.

(** [math.Pow] is a library function; the model takes it as given. *)
Variable Pow : float64 -> float64 -> float64.

#[export] Instance dutyCycler_PowPi : dutyCycler dutyCyclerPowPi := {
  ratio dc temp :=
    if geb temp (pow_maxTemp dc) then one
    else if leb temp (pow_minTemp dc) then zero
    else
      let fraction := div (sub temp (pow_minTemp dc)) (pow_tRange dc) in
      Pow fraction Pi
}.

Variable E : Env.

(** The [Heatsink] struct.  [dcCalc] holds the [ratio] method of the
    duty cycler; [isStopped] is [true] once that channel is closed. *)
Record Heatsink : Type := mkHeatsink {
  name : string;
  sensors : list ThermoSensor;
  fan : FanDriver;
  dcCalc : float64 -> float64;
  chkPeriod : Z;
  isStopped : bool
}.

(** Everything outside the struct that the controller changes: the
    outside world, the trace of its calls, and what it sent to its
    logger. *)
Record Sys : Type := mkSys {
  world : W E;
  calls : list Call;
  logs : list LogEntry
}.

Definition called (c : Call) (w : W E) (sys : Sys) : Sys :=
  mkSys w (calls sys ++ [c]) (logs sys).

Definition logged (l : LogEntry) (sys : Sys) : Sys :=
  mkSys (world sys) (calls sys) (logs sys ++ [l]).

Definition setStopped (hs : Heatsink) : Heatsink :=
  mkHeatsink (name hs) (sensors hs) (fan hs) (dcCalc hs) (chkPeriod hs) true.

(** *** config.go *)

Record Config : Type := mkConfig {
  Fan : option FanDriver;
  Sensors : list (option ThermoSensor);
  MinTemperature : float64;
  MaxTemperature : float64
}.

Definition isNil {A : Type} (x : option A) : bool :=
  match x with None => true | Some _ => false end.

Definition validate (c : Config) : error :=
  if isNil (Fan c) then Some errNoFan
  else if (List.length (Sensors c) =? 0)%nat then Some errNoSensors
  else if existsb isNil (Sensors c) then Some errNilSensor
  else if geb (MinTemperature c) (MaxTemperature c) then Some errBadTemps
  else None.

(** *** options.go *)

Definition Option := Config -> Heatsink -> Heatsink.





Definition OptName (n : string) : Option :=
  fun _ hs =>
    if String.eqb n "" then hs
    else mkHeatsink n (sensors hs) (fan hs) (dcCalc hs) (chkPeriod hs) (isStopped hs).

Fixpoint applyOptions (config : Config) (options : list (option Option)) (hs : Heatsink)
  : Heatsink :=
  match options with
  | [] => hs
  | None :: rest => applyOptions config rest hs
  | Some applyOption :: rest => applyOptions config rest (applyOption config hs)
  end.

(** *** heatsink.go *)

Definition second : Z := 1000000000.

(** The non-nil entries of a slice of interface values; a validated
    configuration has no other. *)
Fixpoint nonNil {A : Type} (l : list (option A)) : list A :=
  match l with
  | [] => []
  | Some x :: rest => x :: nonNil rest
  | None :: rest => nonNil rest
  end.

Definition New (config : option Config) (options : list (option Option))
  : option Heatsink * error :=
  match config with
  | None => (None, Some errNoConfig)
  | Some config =>
      match validate config with
      | Some err => (None, Some (Wrap "invalid configuration" err))
      | None =>
          match Fan config with
          | None => (None, Some (Wrap "invalid configuration" errNoFan))
          | Some f =>
              let hs := mkHeatsink
                          ("heatsink/" ++ fanName E f)
                          (nonNil (Sensors config))
                          f
                          (ratio (newDutyCyclerPowPi (MinTemperature config) (MaxTemperature config)))
                          (1 * second)
                          false in
              (Some (applyOptions config options hs), None)
          end
      end
  end.

(** The loop of [maxCoreTemp] over the sensors, with its two
    accumulators. *)
Fixpoint readSensors (ss : list ThermoSensor) (max : float64) (errs : list Err) (sys : Sys)
  : float64 * list Err * Sys :=
  match ss with
  | [] => (max, errs, sys)
  | thermoSensor :: rest =>
      let '(temp, err, w) := sensorTemperature E thermoSensor (world sys) in
      let sys1 := called (CallTemperature thermoSensor temp err) w sys in
      match err with
      | Some e =>
          let e' := Wrap ("thermo sensor '" ++ sensorName E thermoSensor ++ "'") e in
          readSensors rest max (errs ++ [e']) sys1
      | None =>
          readSensors rest (if gtb temp max then temp else max) errs sys1
      end
  end.

Fixpoint logErrors (errs : list Err) (sys : Sys) : Sys :=
  match errs with
  | [] => sys
  | e :: rest => logErrors rest (logged (mkLog LevelError "failed to read temperature" (Some e)) sys)
  end.

Definition maxCoreTemp (hs : Heatsink) (sys : Sys) : float64 * error * Sys :=
  let '(max, errs, sys1) := readSensors (sensors hs) SmallestNonzeroFloat64 [] sys in
  if (List.length errs =? List.length (sensors hs))%nat
  then (MaxFloat64, Some (MultiErrs errs), sys1)
  else (max, None, logErrors errs sys1).

Fixpoint closeSensors (ss : list ThermoSensor) (errs : list Err) (sys : Sys)
  : list Err * Sys :=
  match ss with
  | [] => (errs, sys)
  | sensor :: rest =>
      let (err, w) := sensorClose E sensor (world sys) in
      let sys1 := called (CallSensorClose sensor err) w sys in
      match err with
      | Some e => closeSensors rest (errs ++ [Wrap "error closing sensor" e]) sys1
      | None => closeSensors rest errs sys1
      end
  end.

(** [StopThermalControl]; it holds [closeMutex] from entry to return. *)
Definition StopThermalControl (hs : Heatsink) (sys : Sys) : error * Heatsink * Sys :=
  if isStopped hs then (Some ErrControllerStopped, hs, sys)
  else
    let hs1 := setStopped hs in
    let (err, w) := fanClose E (fan hs) (world sys) in
    let sys1 := called (CallFanClose (fan hs) err) w sys in
    let errs := match err with
                | Some e => [Wrap "error closing fan" e]
                | None => []
                end in
    let (errs, sys2) := closeSensors (sensors hs) errs sys1 in
    if (0 <? List.length errs)%nat then (Some (MultiErrs errs), hs1, sys2)
    else (None, hs1, sys2).

(** [stopRequested i] tells whether another goroutine has called
    [StopThermalControl] by the time the loop starts its turn [i]. *)
Variable stopRequested : nat -> bool.

(** One turn of the labelled loop of [StartThermalControl]: the body,
    and the post statement [time.Sleep(hs.chkPeriod)] when the body
    falls through.  [inr]: the loop is left with this error. *)
Definition turn (i : nat) (hs : Heatsink) (sys : Sys)
  : Heatsink * Sys + Err * Heatsink * Sys :=
  let '(hs, sys) :=
    if stopRequested i
    then let '(_, hs', sys') := StopThermalControl hs sys in (hs', sys')
    else (hs, sys) in
  if isStopped hs then inr (ErrControllerStopped, hs, sys)
  else
    let '(temp, err, sys1) := maxCoreTemp hs sys in
    match err with
    | Some e => inr (Wrap "determining max core temperature" e, hs, sys1)
    | None =>
        let dcRatio := dcCalc hs temp in
        let sys2 := called (CallRatio temp dcRatio) (world sys1) sys1 in
        let (err, w) := fanSetDutyCycle E (fan hs) dcRatio (world sys2) in
        let sys3 := called (CallSetDutyCycle (fan hs) dcRatio err) w sys2 in
        match err with
        | Some e => inr (Wrap "setting fan's duty cycle" e, hs, sys3)
        | None => inl (hs, called (CallSleep (chkPeriod hs)) (world sys3) sys3)
        end
    end.

(** The loop from its turn [i] on.  [None]: the loop is still running
    when the fuel is used up. *)
Fixpoint controlLoop (fuel : nat) (i : nat) (hs : Heatsink) (sys : Sys)
  : option (Err * Heatsink * Sys) :=
  match fuel with
  | O => None
  | S fuel' =>
      match turn i hs sys with
      | inr exit => Some exit
      | inl (hs1, sys1) => controlLoop fuel' (S i) hs1 sys1
      end
  end.

(** The state in which the loop starts its turn [i + k], when the [k]
    turns from [i] on all fall through; [None] when one of them leaves
    the loop. *)
Fixpoint afterTurns (k : nat) (i : nat) (hs : Heatsink) (sys : Sys)
  : option (Heatsink * Sys) :=
  match k with
  | O => Some (hs, sys)
  | S k' =>
      match turn i hs sys with
      | inr _ => None
      | inl (hs1, sys1) => afterTurns k' (S i) hs1 sys1
      end
  end.

(** The deferred function of [StartThermalControl]. *)
Definition deferredStop (hs : Heatsink) (sys : Sys) : Heatsink * Sys :=
  let '(cerr, hs1, sys1) := StopThermalControl hs sys in
  match cerr with
  | Some e =>
      if isControllerStopped e then (hs1, sys1)
      else
        let sys2 := logged (mkLog LevelError
                      "failed to properly stop thermal control after encountering an error"
                      (Some e)) sys1 in
        (hs1, logged (mkLog LevelInfo "stopped thermal control" None) sys2)
  | None => (hs1, logged (mkLog LevelInfo "stopped thermal control" None) sys1)
  end.

Definition StartThermalControl (fuel : nat) (hs : Heatsink) (sys : Sys)
  : option (error * Heatsink * Sys) :=
  let sys0 := logged (mkLog LevelInfo "started thermal control" None) sys in
  match controlLoop fuel 0 hs sys0 with
  | None => None
  | Some (err, hs1, sys1) =>
      let (hs2, sys2) := deferredStop hs1 sys1 in
      Some (Some err, hs2, sys2)
  end.

End Controller.

Arguments world {E} s.
Arguments calls {E} s.
Arguments logs {E} s.

End Heatsink.

(* ================================================================= *)
(** ** The vocabulary of the specification *)

Module Spec.

Definition fmax (x y : float64) : float64 := if ltb x y then y else x.

(** Membership in the closed interval [0,1]. *)
Definition in01 (x : float64) : bool := leb zero x && leb x one.

(** The maximum over a list of readings: [None] for the empty list. *)
Fixpoint maximum (l : list float64) : option float64 :=
  match l with
  | [] => None
  | x :: rest =>
      match maximum rest with
      | None => Some x
      | Some m => Some (fmax x m)
      end
  end.

(** An error reports another when that one is the error itself, is
    wrapped in it, or is one of its aggregated entries. *)
Inductive Reports : Err -> Err -> Prop :=
| reports_self : forall e, Reports e e
| reports_wrapped : forall p e t, Reports e t -> Reports (Wrap p e) t
| reports_entry : forall es e t, In e es -> Reports e t -> Reports (MultiErrs es) t.

(** The failures among the results of a series of calls, each wrapped
    with the same prefix, in the order of the calls. *)
Fixpoint failures (prefix : string) (results : list error) : list Err :=
  match results with
  | [] => []
  | Some e :: rest => Wrap prefix e :: failures prefix rest
  | None :: rest => failures prefix rest
  end.

(** One aggregated error for a list of failures, [nil] for none. *)
Definition aggregate (errs : list Err) : error :=
  match errs with
  | [] => None
  | _ :: _ => Some (MultiErrs errs)
  end.

(** The values written to the device file, in order. *)
Fixpoint writes (h : list Fanpwm.Event) : list string :=
  match h with
  | [] => []
  | Fanpwm.Write b :: rest => b :: writes rest
  | _ :: rest => writes rest
  end.

(** Reading every sensor once, in order: the readings, and the world
    afterwards. *)
Fixpoint poll (E : Heatsink.Env) (ss : list Heatsink.ThermoSensor) (w : Heatsink.W E)
  : list (float64 * error) * Heatsink.W E :=
  match ss with
  | [] => ([], w)
  | s :: rest =>
      let '(temp, err, w1) := Heatsink.sensorTemperature E s w in
      let (rs, w2) := poll E rest w1 in
      ((temp, err) :: rs, w2)
  end.

(** The readings that succeeded. *)
Fixpoint successful (rs : list (float64 * error)) : list float64 :=
  match rs with
  | [] => []
  | (temp, None) :: rest => temp :: successful rest
  | (_, Some _) :: rest => successful rest
  end.

(** The greatest of [max] and the successful readings of [rs], taken
    from left to right. *)
Fixpoint runningMax (rs : list (float64 * error)) (max : float64) : float64 :=
  match rs with
  | [] => max
  | (temp, None) :: rest => runningMax rest (if gtb temp max then temp else max)
  | (_, Some _) :: rest => runningMax rest max
  end.

(** The entry of the aggregated error for a failed reading. *)
Fixpoint readFailures (E : Heatsink.Env) (ss : list Heatsink.ThermoSensor)
    (rs : list (float64 * error)) : list Err :=
  match ss, rs with
  | s :: ss', (_, Some e) :: rs' =>
      Wrap ("thermo sensor '" ++ Heatsink.sensorName E s ++ "'") e :: readFailures E ss' rs'
  | _ :: ss', (_, None) :: rs' => readFailures E ss' rs'
  | _, _ => []
  end.

(** The trace of reading the sensors [ss] with the results [rs], and of
    closing them with the results [errs]. *)
Definition temperatureCalls (ss : list Heatsink.ThermoSensor) (rs : list (float64 * error))
  : list Heatsink.Call :=
  map (fun p => Heatsink.CallTemperature (fst p) (fst (snd p)) (snd (snd p))) (combine ss rs).

Definition sensorCloseCalls (ss : list Heatsink.ThermoSensor) (errs : list error)
  : list Heatsink.Call :=
  map (fun p => Heatsink.CallSensorClose (fst p) (snd p)) (combine ss errs).

(** How many times a trace closes the sensor [s], and the fan [f]. *)
Fixpoint sensorCloses (s : Heatsink.ThermoSensor) (cs : list Heatsink.Call) : nat :=
  match cs with
  | [] => 0
  | Heatsink.CallSensorClose s' _ :: rest =>
      (if Nat.eqb s s' then 1 else 0) + sensorCloses s rest
  | _ :: rest => sensorCloses s rest
  end.

Fixpoint fanCloses (f : Heatsink.FanDriver) (cs : list Heatsink.Call) : nat :=
  match cs with
  | [] => 0
  | Heatsink.CallFanClose f' _ :: rest =>
      (if Nat.eqb f f' then 1 else 0) + fanCloses f rest
  | _ :: rest => fanCloses f rest
  end.

(** One full pulse on the device file: the minimum level, the low
    time, the maximum level, the high time. *)
Definition pulse (minVal maxVal : string) (dn up : Z) : list Fanpwm.Event :=
  Fanpwm.speedCalls minVal ++ [Fanpwm.Sleep dn] ++ Fanpwm.speedCalls maxVal ++ [Fanpwm.Sleep up].



(** A list of options for a sensor, each a nil option or an [OptName],
    and the name the sensor ends up with: the last one asked for that
    is not empty, or else the default. *)
Definition sensorOptions (l : list (option string)) : list (option Thermosense.Option) :=
  map (option_map Thermosense.OptName) l.

Definition lastName (default : string) (l : list (option string)) : string :=
  fold_left (fun acc o => match o with
                          | Some n => if String.eqb n "" then acc else n
                          | None => acc
                          end) l default.

(** The value of a finite float64 counted in units of 2^-1074, the
    spacing of the smallest numbers: an integer. *)
Definition scaled (x : float64) : Z :=
  match x with
  | S754_finite s m e => cond_Zopp s (Zpos m * 2 ^ (e + 1074))
  | _ => 0
  end.

Definition is_finite (x : float64) : bool :=
  match x with
  | S754_finite _ _ _ | S754_zero _ => true
  | _ => false
  end.

(** [D / 2^n] rounded to the nearest integer, halves to the even one,
    for [n >= 1]. *)
Definition nearestEven (D n : Z) : Z :=
  let m1 := D / 2 ^ n in
  let rem := D mod 2 ^ n in
  if (2 ^ (n - 1) <? rem) || ((rem =? 2 ^ (n - 1)) && Z.odd m1) then m1 + 1 else m1.

(** A positive integer rounded to 53 significant bits. *)
Definition rounded (D : positive) : Z :=
  let d := Zpos (digits2_pos D) in
  if d <=? 53 then Zpos D else nearestEven (Zpos D) (d - 53) * 2 ^ (d - 53).

(** The float64 nearest to [D] units of 2^-1074, for a positive
    integer [D]: the mantissa keeps 53 bits, a carry out of the rounding
    moves to the next exponent, and what is beyond the largest exponent
    is infinite. *)
Definition finiteOrInf (m e : Z) : float64 :=
  if e <=? emax - prec then S754_finite false (Z.to_pos m) e else S754_infinity false.

Definition roundScaled (D : positive) : float64 :=
  let d := Zpos (digits2_pos D) in
  if d <=? 53 then S754_finite false D (-1074)
  else
    let n := d - 53 in
    let m2 := nearestEven (Zpos D) n in
    if m2 =? 2 ^ 53 then finiteOrInf (2 ^ 52) (n + 1 - 1074)
    else finiteOrInf m2 (n - 1074).

(** What a closed sensor answers to a call. *)
Definition closedAnswer (a : Thermosense.Action) : option float64 * error :=
  match a with
  | Thermosense.ActTemperature => (Some Thermosense.Inf, Some ErrThermoSensorClosed)
  | Thermosense.ActClose => (None, Some ErrThermoSensorClosed)
  end.


(** The log entries for sensors that could not be read. *)
Definition readErrorLogs (errs : list Err) : list Heatsink.LogEntry :=
  map (fun e => Heatsink.mkLog Heatsink.LevelError "failed to read temperature" (Some e)) errs.

End Spec.

(* ================================================================= *)
(** ** Concrete drivers and environments *)

Module Fixtures.

Import Fanpwm Heatsink.

(** The x86-64 conversion instruction gives the "integer indefinite"
    value for what int64 cannot represent. *)
Definition amd64 (_ : float64) : Z := - 2 ^ 63.

Definition noFault (_ : nat) : option Err := None.

(** A device file on which the third call and the fourth call fail. *)
Definition writeAndCloseFail (n : nat) : option Err :=
  match n with
  | 2%nat => Some (ErrIO "write failed")
  | 3%nat => Some (ErrIO "close failed")
  | _ => None
  end.

(** The driver [New] gives with no options: levels "0" and "255",
    period 50ms. *)
Definition defaultDriver (fault : nat -> option Err) : Driver :=
  startAsyncNopPWM (mkDriver "pwm1" "0" "255" (50 * millisecond) false TaskExited [] fault).

(** An environment played from a script: the world is the number of
    calls made so far, and each method answers from its table. *)
Definition scripted
    (temps : ThermoSensor -> nat -> float64 * error)
    (sensorCloses : ThermoSensor -> nat -> error)
    (sets : nat -> error)
    (fanCloses : nat -> error) : Env :=
  mkEnv nat
        (fun s w => (temps s w, S w))
        (fun s => if Nat.eqb s 0 then "core0"%string else "core1"%string)
        (fun s w => (sensorCloses s w, S w))
        (fun _ _ w => (sets w, S w))
        (fun _ => "cpu-fan1"%string)
        (fun _ w => (fanCloses w, S w)).

(** Sensor 0 reads 36 degrees and every other sensor 40; nothing fails. *)
Definition healthy : Env :=
  scripted (fun s _ => if Nat.eqb s 0 then (of_Z 36, None) else (of_Z 40, None))
           (fun _ _ => None) (fun _ => None) (fun _ => None).

(** A single sensor, in a cold room: it reads -5 degrees. *)
Definition freezing : Env :=
  scripted (fun _ _ => (of_Z (-5), None))
           (fun _ _ => None) (fun _ => None) (fun _ => None).



(** A stand-in for [math.Pow] with an integer exponent. *)
Definition cube (x _ : float64) : float64 := mul x (mul x x).


Definition config1 : Config :=
  mkConfig (Some 7%nat) [Some 0%nat] (of_Z 35) (of_Z 45).

(** The same sensor given twice. *)
Definition configDup : Config :=
  mkConfig (Some 7%nat) [Some 0%nat; Some 0%nat] (of_Z 35) (of_Z 45).

Definition heatsink2 : Heatsink :=
  mkHeatsink "heatsink/cpu-fan1" [0%nat; 1%nat] 7%nat
             (ratio (newDutyCyclerLinear (of_Z 35) (of_Z 45))) (1 * second) false.


(** A heatsink for the cold room, calibrated from -10 to 0 degrees. *)
Definition heatsinkCold : Heatsink :=
  mkHeatsink "heatsink/cpu-fan1" [0%nat] 7%nat
             (ratio (newDutyCyclerLinear (of_Z (-10)) (of_Z 0))) (1 * second) false.

(** A sensor on a device file that reads 36000 millidegrees and never
    fails. *)
Definition coreSensor : Thermosense.Sensor :=
  Thermosense.mkSensor "temp1_input" false [] (fun _ => None) (fun _ => inl 36000).

Definition boot (E : Env) (w : W E) : Sys E := mkSys E w [] [].

(** Nobody ever stops the controller; somebody does during its sleep
    before the turn [n]. *)
Definition never (_ : nat) : bool := false.
Definition stopAt (n : nat) (i : nat) : bool := Nat.eqb i n.

End Fixtures.
(* ================================================================= *)
(** ** Facts about float64 comparisons *)

Module F64Facts.

Ltac split_compare :=
  repeat match goal with
  | |- context [Z.compare ?a ?b] => destruct (Z.compare_spec a b)
  | |- context [Pos.compare_cont Eq ?a ?b] =>
      change (Pos.compare_cont Eq a b) with (Pos.compare a b);
      destruct (Pos.compare_spec a b)
  end.

Lemma compare_rank (x y : float64) :
  is_nan x = false -> is_nan y = false ->
  exists c, SFcompare x y = Some c /\
    (c = Lt <-> lt3 (rank x) (rank y)) /\
    (c = Eq <-> rank x = rank y) /\
    (c = Gt <-> lt3 (rank y) (rank x)).
Proof.
  intros Hx Hy.
  destruct x as [sx|sx| |sx mx ex], y as [sy|sy| |sy my ey]; try discriminate;
    try destruct sx; try destruct sy; cbn [SFcompare rank lt3];
    eexists; (split; [reflexivity|]);
    split_compare; subst;
    (repeat split; intros; try discriminate; try reflexivity; try lia;
     try (exfalso; match goal with H : (_, _, _) = (_, _, _) |- _ => inversion H; lia end)).
Qed.

Lemma ltb_rank (x y : float64) :
  is_nan x = false -> is_nan y = false ->
  (ltb x y = true <-> lt3 (rank x) (rank y)).
Proof.
  intros Hx Hy. destruct (compare_rank x y Hx Hy) as (c & Hc & HLt & HEq & HGt).
  unfold ltb, SFltb. rewrite Hc. destruct c; split; intros H;
    try discriminate; try reflexivity; try (apply HLt; reflexivity);
    apply HLt in H; discriminate.
Qed.

Lemma leb_rank (x y : float64) :
  is_nan x = false -> is_nan y = false ->
  (leb x y = true <-> lt3 (rank x) (rank y) \/ rank x = rank y).
Proof.
  intros Hx Hy. destruct (compare_rank x y Hx Hy) as (c & Hc & HLt & HEq & HGt).
  unfold leb, SFleb. rewrite Hc. destruct c; split; intros H;
    try discriminate; try reflexivity.
  - right. apply HEq. reflexivity.
  - left. apply HLt. reflexivity.
  - destruct H as [H|H]; [apply HLt in H|apply HEq in H]; discriminate.
Qed.

Lemma ltb_nan_l (y : float64) : ltb S754_nan y = false.
Proof. reflexivity. Qed.

Lemma ltb_nan_r (x : float64) : ltb x S754_nan = false.
Proof. destruct x as [s|s| |s m e]; reflexivity. Qed.

Lemma leb_nan_l (y : float64) : leb S754_nan y = false.
Proof. reflexivity. Qed.

Lemma leb_nan_r (x : float64) : leb x S754_nan = false.
Proof. destruct x as [s|s| |s m e]; reflexivity. Qed.

Lemma ltb_true_not_nan (x y : float64) :
  ltb x y = true -> is_nan x = false /\ is_nan y = false.
Proof.
  destruct x as [s|s| |s m e], y as [s'|s'| |s' m' e']; cbn; intros H;
    try discriminate; split; reflexivity.
Qed.

Lemma leb_true_not_nan (x y : float64) :
  leb x y = true -> is_nan x = false /\ is_nan y = false.
Proof.
  destruct x as [s|s| |s m e], y as [s'|s'| |s' m' e']; cbn; intros H;
    try discriminate; split; reflexivity.
Qed.

Ltac rank_solve :=
  repeat match goal with
  | H : context [rank ?x] |- _ => destruct (rank x) as [[? ?] ?]
  | |- context [rank ?x] => destruct (rank x) as [[? ?] ?]
  end;
  unfold lt3 in *;
  repeat match goal with
  | H : (_, _, _) = (_, _, _) |- _ => inversion H; clear H; subst
  end;
  try lia.


(** Two numbers are comparable. *)
Lemma leb_or_gtb (t a : float64) :
  is_nan t = false -> is_nan a = false -> leb t a = true \/ gtb t a = true.
Proof.
  intros Ht Ha. unfold gtb.
  destruct (compare_rank t a Ht Ha) as (c & Hc & HLt & HEq & HGt).
  destruct c.
  - left. apply (leb_rank t a Ht Ha). right. apply HEq. reflexivity.
  - left. apply (leb_rank t a Ht Ha). left. apply HLt. reflexivity.
  - right. apply (ltb_rank a t Ha Ht). apply HGt. reflexivity.
Qed.

Lemma geb_or_ltb (t b : float64) :
  is_nan t = false -> is_nan b = false -> geb t b = true \/ ltb t b = true.
Proof.
  intros Ht Hb. unfold geb.
  destruct (leb_or_gtb b t Hb Ht) as [H|H]; [left|right]; exact H.
Qed.

(** Strictly below means not at or above. *)
Lemma ltb_not_geb (t b : float64) : ltb t b = true -> geb t b = false.
Proof.
  intros H. destruct (ltb_true_not_nan _ _ H) as [Ht Hb].
  apply (ltb_rank t b Ht Hb) in H.
  change (leb b t = false). destruct (leb b t) eqn:Hbt; [|reflexivity].
  apply (leb_rank b t Hb Ht) in Hbt. exfalso.
  destruct Hbt as [Hbt|Hbt]; rank_solve.
Qed.


End F64Facts.

(* ================================================================= *)
(** ** Facts about float64 arithmetic on durations *)

Module F64Arith.

Import F64Facts.


Lemma digits2_pos_bounds (p : positive) :
  2 ^ (Zpos (digits2_pos p) - 1) <= Zpos p < 2 ^ Zpos (digits2_pos p).
Proof.
  induction p as [p IH|p IH|]; cbn [digits2_pos].
  - rewrite Pos2Z.inj_succ, Z.pow_succ_r by lia.
    replace (Z.succ (Zpos (digits2_pos p)) - 1) with (Z.succ (Zpos (digits2_pos p) - 1)) by lia.
    rewrite Z.pow_succ_r by lia. lia.
  - rewrite Pos2Z.inj_succ, Z.pow_succ_r by lia.
    replace (Z.succ (Zpos (digits2_pos p)) - 1) with (Z.succ (Zpos (digits2_pos p) - 1)) by lia.
    rewrite Z.pow_succ_r by lia. lia.
  - cbn. lia.
Qed.

Lemma iter_xO_value (p k : positive) :
  Zpos (Pos.iter xO p k) = Zpos p * 2 ^ Zpos k.
Proof.
  induction k as [|k IH] using Pos.peano_ind.
  - cbn. lia.
  - rewrite Pos.iter_succ, Pos2Z.inj_xO, IH, Pos2Z.inj_succ, Z.pow_succ_r by lia. lia.
Qed.

Lemma iter_xO_digits (p k : positive) :
  digits2_pos (Pos.iter xO p k) = (digits2_pos p + k)%positive.
Proof.
  induction k as [|k IH] using Pos.peano_ind.
  - cbn. lia.
  - rewrite Pos.iter_succ. cbn [digits2_pos]. rewrite IH. lia.
Qed.

(** A 53-bit mantissa with an exponent in range is already rounded. *)
Lemma binary_round_aux_exact (s : bool) (m : positive) (e : Z) :
  Zpos (digits2_pos m) = 53 -> -1074 <= e <= 971 ->
  binary_round_aux prec emax s (Zpos m) e loc_Exact = S754_finite s m e.
Proof.
  intros Hd He.
  assert (Hs : shr_fexp prec emax (Zpos m) e loc_Exact
               = (Build_shr_record (Zpos m) false false, e)).
  { unfold shr_fexp, shr_record_of_loc. cbn [Zdigits2]. rewrite Hd.
    unfold fexp, emin, prec, emax.
    replace (Z.max (53 + e - 53) (3 - 1024 - 53) - e) with 0 by lia.
    reflexivity. }
  unfold binary_round_aux. rewrite Hs. cbn [shr_m loc_of_shr_record round_nearest_even].
  rewrite Hs. cbn [shr_m].
  replace (e <=? emax - prec) with true; [reflexivity|].
  symmetry. apply Z.leb_le. unfold emax, prec. lia.
Qed.

(** [float64(n)] for an integer below 2^53: no rounding. *)
Lemma of_Z_small (p : positive) :
  Zpos p < 2 ^ 53 ->
  exists m e, of_Z (Zpos p) = S754_finite false m e /\
    Zpos (digits2_pos m) = 53 /\ -52 <= e <= 0 /\ Zpos m = Zpos p * 2 ^ (- e).
Proof.
  intros Hp.
  pose proof (digits2_pos_bounds p) as [Hlo Hhi].
  assert (Hd : Zpos (digits2_pos p) <= 53).
  { destruct (Z_le_gt_dec (Zpos (digits2_pos p)) 53) as [H|H]; [exact H|exfalso].
    assert (2 ^ 53 <= 2 ^ (Zpos (digits2_pos p) - 1)) by (apply Z.pow_le_mono_r; lia).
    lia. }
  unfold of_Z, binary_normalize, binary_round.
  unfold shl_align, fexp, emin, prec, emax.
  replace (Z.max (Zpos (digits2_pos p) + 0 - 53) (3 - 1024 - 53) - 0)
    with (Zpos (digits2_pos p) - 53) by lia.
  destruct (Zpos (digits2_pos p) - 53) as [|k|k] eqn:Hk; try lia.
  - exists p, 0. split; [|repeat split; try lia].
    apply binary_round_aux_exact; lia.
  - exists (Pos.iter xO p k), (Z.max (Zpos (digits2_pos p) + 0 - 53) (3 - 1024 - 53)).
    assert (Hdig : Zpos (digits2_pos (Pos.iter xO p k)) = 53).
    { rewrite iter_xO_digits, Pos2Z.inj_add. lia. }
    split; [|split; [exact Hdig|split; [lia|]]].
    + apply binary_round_aux_exact; [exact Hdig|lia].
    + rewrite iter_xO_value. f_equal. f_equal. lia.
Qed.


Lemma iter_pos_iter {A : Type} (f : A -> A) (n : positive) (x : A) :
  iter_pos f n x = Pos.iter f x n.
Proof.
  revert x. induction n as [n IH|n IH|]; intros x; cbn [iter_pos Pos.iter].
  - rewrite !IH. rewrite <- !Pos.iter_swap. reflexivity.
  - rewrite !IH. reflexivity.
  - reflexivity.
Qed.

(** Shifting right what was shifted left loses nothing. *)
Lemma shr_iter_xO (m k : positive) :
  iter_pos shr_1 k (Build_shr_record (Zpos (Pos.iter xO m k)) false false)
  = Build_shr_record (Zpos m) false false.
Proof.
  rewrite iter_pos_iter.
  induction k as [|k IH] using Pos.peano_ind.
  - reflexivity.
  - rewrite !Pos.iter_succ. rewrite <- Pos.iter_swap. cbn [shr_1 orb]. exact IH.
Qed.

Lemma mul_one_mantissa (m : positive) : Pos.mul 4503599627370496 m = Pos.iter xO m 52.
Proof. reflexivity. Qed.

(** Multiplying a normal number by 1.0 gives it back. *)
Lemma mul_one_exact (m : positive) (e : Z) :
  Zpos (digits2_pos m) = 53 -> -1074 <= e <= 971 ->
  mul one (S754_finite false m e) = S754_finite false m e.
Proof.
  intros Hd He. unfold mul, one. cbn [SFmul xorb].
  rewrite mul_one_mantissa.
  assert (Hs : shr_fexp prec emax (Zpos (Pos.iter xO m 52)) (-52 + e) loc_Exact
               = (Build_shr_record (Zpos m) false false, e)).
  { unfold shr_fexp, shr_record_of_loc. cbn [Zdigits2].
    rewrite iter_xO_digits, Pos2Z.inj_add, Hd.
    unfold fexp, emin, prec, emax.
    replace (Z.max (53 + 52 + (-52 + e) - 53) (3 - 1024 - 53) - (-52 + e)) with 52 by lia.
    unfold shr. rewrite shr_iter_xO. f_equal. lia. }
  unfold binary_round_aux. rewrite Hs. cbn [shr_m loc_of_shr_record round_nearest_even].
  assert (Hs' : shr_fexp prec emax (Zpos m) e loc_Exact
               = (Build_shr_record (Zpos m) false false, e)).
  { unfold shr_fexp, shr_record_of_loc. cbn [Zdigits2]. rewrite Hd.
    unfold fexp, emin, prec, emax.
    replace (Z.max (53 + e - 53) (3 - 1024 - 53) - e) with 0 by lia.
    reflexivity. }
  rewrite Hs'. cbn [shr_m].
  replace (e <=? emax - prec) with true; [reflexivity|].
  symmetry. apply Z.leb_le. unfold emax, prec. lia.
Qed.

Lemma shiftl_neg_exact (a k : Z) : 0 <= k -> Z.shiftl (a * 2 ^ k) (- k) = a.
Proof.
  intros Hk. rewrite <- Z.shiftr_opp_r, Z.opp_involutive, Z.shiftr_div_pow2 by lia.
  apply Z.div_mul. apply Z.pow_nonzero; lia.
Qed.

(** A period below 2^53 survives the trip through float64, also when
    multiplied by 1.0, and 0.0 times a period is zero. *)
Lemma period_roundtrip (P : Z) :
  0 < P < 2 ^ 53 ->
  trunc (mul one (of_Z P)) = Some P /\ trunc (mul zero (of_Z P)) = Some 0.
Proof.
  intros HP. destruct P as [|p|p]; try lia.
  destruct (of_Z_small p) as (m & e & Hof & Hd & He & Hm); [lia|].
  rewrite Hof. split.
  - rewrite mul_one_exact by (try exact Hd; lia).
    cbn [trunc cond_Zopp]. rewrite Hm.
    rewrite <- (shiftl_neg_exact (Zpos p) (- e)) at 2 by lia.
    f_equal. f_equal. lia.
  - reflexivity.
Qed.

End F64Arith.

(* ================================================================= *)
(** ** The PWM driver *)

Module FanpwmFacts.

Import Fanpwm F64Facts F64Arith.

Lemma wrap64_small (z : Z) : in_int64 z = true -> wrap64 z = z.
Proof.
  unfold in_int64, wrap64. intros H.
  apply andb_true_iff in H. destruct H as [H1 H2].
  apply Z.leb_le in H1. apply Z.ltb_lt in H2.
  rewrite Z.mod_small by lia. lia.
Qed.

Lemma wrap64_range (z : Z) : - 2 ^ 63 <= wrap64 z < 2 ^ 63.
Proof.
  unfold wrap64. pose proof (Z.mod_pos_bound (z + 2 ^ 63) (2 ^ 64)). lia.
Qed.

Lemma wrap64_congr (z : Z) : exists k, wrap64 z = z + k * 2 ^ 64.
Proof.
  unfold wrap64. exists (- ((z + 2 ^ 63) / 2 ^ 64)).
  pose proof (Z.div_mod (z + 2 ^ 63) (2 ^ 64)). lia.
Qed.

(** The split always adds up to the period, whatever [up] is. *)
Lemma split_adds_up (P up : Z) :
  in_int64 P = true -> in_int64 up = true -> wrap64 (up + wrap64 (P - up)) = P.
Proof.
  intros HP Hup.
  apply andb_true_iff in HP. destruct HP as [HP1 HP2].
  apply Z.leb_le in HP1. apply Z.ltb_lt in HP2.
  destruct (wrap64_congr (P - up)) as [k1 Hk1].
  destruct (wrap64_congr (up + wrap64 (P - up))) as [k2 Hk2].
  pose proof (wrap64_range (up + wrap64 (P - up))) as Hr.
  rewrite Hk2 in *. rewrite Hk1 in *. lia.
Qed.

Section Platform.

Variable conv : float64 -> Z.

Lemma Duration_in_int64 (x : float64) : in_int64 (Duration_of_float64 conv x) = true.
Proof.
  assert (Hw : forall z, in_int64 (wrap64 z) = true).
  { intros z. pose proof (wrap64_range z). unfold in_int64.
    apply andb_true_iff. split; [apply Z.leb_le|apply Z.ltb_lt]; lia. }
  unfold Duration_of_float64. destruct (trunc x) as [z|]; [|apply Hw].
  destruct (in_int64 z) eqn:Hz; [exact Hz|apply Hw].
Qed.




End Platform.

Lemma setSpeed_cases (val : string) (dr : Driver) :
  let n := List.length (history dr) in
  setSpeed val dr =
    match devFault dr n with
    | Some e => (Some e, extend (firstn 1 (speedCalls val)) dr)
    | None =>
        match devFault dr (S n) with
        | Some e => (Some e, extend (firstn 2 (speedCalls val)) dr)
        | None => (devFault dr (S (S n)), extend (speedCalls val) dr)
        end
    end.
Proof.
  destruct dr as [nm mn mx P cl tk h flt].
  unfold setSpeed, fileCall, record, extend, speedCalls.
  cbn [name minSpeedVal maxSpeedVal pwmPeriod closeSignal task history devFault firstn].
  destruct (flt (List.length h)) as [e|]; [reflexivity|].
  rewrite length_app. cbn [List.length]. rewrite Nat.add_1_r.
  destruct (flt (S (List.length h))) as [e|].
  - rewrite <- app_assoc. reflexivity.
  - rewrite !length_app. cbn [List.length]. rewrite !Nat.add_1_r.
    rewrite <- !app_assoc. reflexivity.
Qed.


End FanpwmFacts.

Module FanpwmClaims.

Import Fanpwm F64Facts F64Arith FanpwmFacts Fixtures.







(** C3, amended.  The first [Close] marks the driver closed, commands
    the maximum level and then closes the device file; the file is
    closed whether or not the level could be set.  It returns the
    first failure only: the failure to set the level if there is one,
    also when closing the file fails as well, and otherwise the failure
    to close the file. *)
Theorem Close_first_failure (dr : Driver) :
  closeSignal dr = false ->
  let n := List.length (history dr) in
  exists k dr',
    (1 <= k <= 3)%nat /\
    (forall j, (j < k - 1)%nat -> devFault dr (n + j) = None) /\
    (devFault dr (n + (k - 1)) = None -> k = 3%nat) /\
    history dr' = history dr ++ firstn k (speedCalls (maxSpeedVal dr)) ++ [CloseFile] /\
    closeSignal dr' = true /\
    task dr' = TaskExited /\
    Close dr =
      (match devFault dr (n + (k - 1)), devFault dr (n + k) with
       | Some e1, _ => Some (Wrap "failed to set fan speed to max while closing driver" e1)
       | None, Some e2 => Some (Wrap "failed to close device file while closing driver" e2)
       | None, None => None
       end, dr').
Proof.
  destruct dr as [nm mn mx P cl tk h flt].
  cbn [closeSignal history devFault maxSpeedVal]. intros Hopen. subst cl.
  cbv zeta. set (n := List.length h).
  assert (Hj : forall j : nat, (j < 2)%nat -> j = 0%nat \/ j = 1%nat) by lia.
  assert (Hk : exists k : nat,
             k = match flt n with
                 | Some _ => 1%nat
                 | None => match flt (S n) with Some _ => 2%nat | None => 3%nat end
                 end) by (eexists; reflexivity).
  destruct Hk as [k Hk]. exists k.
  exists (snd (Close (mkDriver nm mn mx P false tk h flt))).
  unfold Close, isClosed. cbn [closeSignal].
  unfold setSpeedMax. rewrite setSpeed_cases. cbv zeta.
  unfold fileCall, extend, record, speedCalls, setTask, setClosed.
  cbn [history devFault closeSignal task name minSpeedVal maxSpeedVal pwmPeriod].
  fold n.
  destruct (flt n) as [e0|] eqn:H0;
    [|destruct (flt (S n)) as [e1|] eqn:H1];
    subst k;
    cbn [history devFault closeSignal task firstn name minSpeedVal maxSpeedVal pwmPeriod
         snd fst];
    rewrite ?length_app; cbn [List.length Nat.sub]; fold n;
    rewrite ?Nat.add_0_r, ?Nat.add_1_r;
    replace (n + 2)%nat with (S (S n)) by lia;
    replace (n + 3)%nat with (S (S (S n))) by lia;
    rewrite ?H0, ?H1;
    (split; [lia|]);
    (split; [intros j Hlt; try lia;
             destruct (Hj j ltac:(lia)) as [->| ->]; try lia;
             rewrite ?Nat.add_0_r, ?Nat.add_1_r; assumption|]);
    (split; [intros; try discriminate; reflexivity|]).
  - destruct (flt (S n)); cbn [snd history closeSignal task];
      rewrite <- ?app_assoc; repeat split; reflexivity.
  - destruct (flt (S (S n))); cbn [snd history closeSignal task];
      rewrite <- ?app_assoc; repeat split; reflexivity.
  - destruct (flt (S (S n))) as [e2|]; destruct (flt (S (S (S n))));
      cbn [snd history closeSignal task];
      rewrite <- ?app_assoc; repeat split; reflexivity.
Qed.

Lemma Close_first_failure_witness :
  closeSignal (defaultDriver writeAndCloseFail) = false /\
  exists k dr',
    (1 <= k <= 3)%nat /\
    (forall j, (j < k - 1)%nat -> devFault (defaultDriver writeAndCloseFail) (0 + j) = None) /\
    (devFault (defaultDriver writeAndCloseFail) (0 + (k - 1)) = None -> k = 3%nat) /\
    history dr' = [] ++ firstn k (speedCalls "255") ++ [CloseFile] /\
    closeSignal dr' = true /\
    task dr' = TaskExited /\
    Close (defaultDriver writeAndCloseFail) =
      (match devFault (defaultDriver writeAndCloseFail) (0 + (k - 1)),
             devFault (defaultDriver writeAndCloseFail) (0 + k) with
       | Some e1, _ => Some (Wrap "failed to set fan speed to max while closing driver" e1)
       | None, Some e2 => Some (Wrap "failed to close device file while closing driver" e2)
       | None, None => None
       end, dr').
Proof.
  split; [reflexivity|].
  apply (Close_first_failure (defaultDriver writeAndCloseFail)). reflexivity.
Defined.

(** C3 as stated fails when both steps fail: the write of the maximum
    level fails, the file is closed all the same and that fails too,
    and the error returned reports the first failure only. *)
Lemma Close_both_fail_counterexample :
  let dr := defaultDriver writeAndCloseFail in
  exists dr',
    Close dr = (Some (Wrap "failed to set fan speed to max while closing driver"
                           (ErrIO "write failed")), dr') /\
    history dr' = [Seek 0 0; Truncate 0; Write "255"; CloseFile] /\
    devFault dr 2 = Some (ErrIO "write failed") /\
    devFault dr 3 = Some (ErrIO "close failed") /\
    ~ Spec.Reports (Wrap "failed to set fan speed to max while closing driver"
                         (ErrIO "write failed"))
                   (ErrIO "close failed").
Proof.
  eexists. split; [reflexivity|]. repeat (split; [reflexivity|]).
  intros H. inversion H as [| p e t H1 | ]; subst. inversion H1.
Qed.

(** C8.  Once [Close] has been called on an open driver, whatever is
    done next -- calls of [SetDutyCycle], calls of [Close], turns of a
    background goroutine, in any order and number -- every call returns
    [ErrFanDriverClosed] and the driver is left as it was: nothing more
    is done on the device file. *)
Theorem closed_driver_is_inert (conv : float64 -> Z) (dr : Driver) (acts : list Action) :
  closeSignal dr = false ->
  exists errs,
    run conv acts (snd (Close dr)) = Some (errs, snd (Close dr)) /\
    Forall (fun e => e = Some ErrFanDriverClosed) errs /\
    List.length errs =
      List.length (filter (fun a => match a with ActBgCycle => false | _ => true end) acts).
Proof.
  intros Hopen.
  assert (Hc : closeSignal (snd (Close dr)) = true /\ task (snd (Close dr)) = TaskExited).
  { unfold Close, isClosed. rewrite Hopen. unfold setSpeedMax.
    pose proof (setSpeed_cases (maxSpeedVal (setTask TaskExited (setClosed dr)))
                  (setTask TaskExited (setClosed dr))) as Hs.
    cbv zeta in Hs. rewrite Hs. unfold fileCall.
    repeat match goal with
           | |- context [match devFault ?d ?n with _ => _ end] => destruct (devFault d n)
           end;
      split; reflexivity. }
  destruct Hc as [Hcl Htk]. generalize dependent (snd (Close dr)). intros d Hcl Htk.
  induction acts as [|a acts IH].
  - exists []. repeat split. constructor.
  - destruct IH as (errs & Hrun & Hall & Hlen).
    destruct a as [r| |]; cbn [run filter List.length].
    + unfold SetDutyCycle, isClosed. rewrite Hcl, Hrun.
      exists (Some ErrFanDriverClosed :: errs). repeat split.
      * constructor; [reflexivity|exact Hall].
      * cbn [List.length]. rewrite Hlen. reflexivity.
    + unfold Close, isClosed. rewrite Hcl, Hrun.
      exists (Some ErrFanDriverClosed :: errs). repeat split.
      * constructor; [reflexivity|exact Hall].
      * cbn [List.length]. rewrite Hlen. reflexivity.
    + unfold bgCycle. rewrite Htk, Hrun. exists errs. repeat split; assumption.
Qed.

Lemma closed_driver_is_inert_witness :
  closeSignal (defaultDriver noFault) = false /\
  exists errs,
    run amd64 [ActSetDutyCycle (of_dec 5 1); ActBgCycle; ActClose]
        (snd (Close (defaultDriver noFault)))
    = Some (errs, snd (Close (defaultDriver noFault))) /\
    Forall (fun e => e = Some ErrFanDriverClosed) errs /\
    List.length errs = 2%nat.
Proof.
  split; [reflexivity|].
  apply (closed_driver_is_inert amd64 (defaultDriver noFault)
           [ActSetDutyCycle (of_dec 5 1); ActBgCycle; ActClose]).
  reflexivity.
Defined.

End FanpwmClaims.

(* ================================================================= *)
(** ** The thermal controller *)

Module HeatsinkFacts.

Import Heatsink.

Section Controller.

Variable E : Env.

Lemma closeSensors_spec (ss : list ThermoSensor) :
  forall (errs : list Err) (sys : Sys E),
  exists (results : list error) (w : W E),
    List.length results = List.length ss /\
    closeSensors E ss errs sys =
      (errs ++ Spec.failures "error closing sensor" results,
       mkSys E w (calls sys ++ Spec.sensorCloseCalls ss results) (logs sys)).
Proof.
  induction ss as [|s ss IH]; intros errs sys.
  - exists [], (world sys). split; [reflexivity|].
    cbn [closeSensors Spec.failures Spec.sensorCloseCalls combine map].
    rewrite !app_nil_r. destruct sys; reflexivity.
  - cbn [closeSensors].
    destruct (sensorClose E s (world sys)) as [err w1] eqn:Hc.
    destruct err as [e|].
    + destruct (IH (errs ++ [Wrap "error closing sensor" e])
                   (called E (CallSensorClose s (Some e)) w1 sys))
        as (results & w & Hlen & Heq).
      exists (Some e :: results), w. split; [cbn; rewrite Hlen; reflexivity|].
      rewrite Heq. unfold called.
      cbn [calls logs Spec.failures Spec.sensorCloseCalls combine map fst snd].
      rewrite <- !app_assoc. reflexivity.
    + destruct (IH errs (called E (CallSensorClose s None) w1 sys))
        as (results & w & Hlen & Heq).
      exists (None :: results), w. split; [cbn; rewrite Hlen; reflexivity|].
      rewrite Heq. unfold called.
      cbn [calls logs Spec.failures Spec.sensorCloseCalls combine map fst snd].
      rewrite <- !app_assoc. reflexivity.
Qed.

Lemma sensorCloses_app (s : ThermoSensor) (cs cs' : list Call) :
  Spec.sensorCloses s (cs ++ cs') = (Spec.sensorCloses s cs + Spec.sensorCloses s cs')%nat.
Proof.
  induction cs as [|c cs IH]; [reflexivity|].
  destruct c; cbn [app Spec.sensorCloses]; rewrite IH; lia.
Qed.

Lemma sensorCloses_closeCalls (s : ThermoSensor) (ss : list ThermoSensor) :
  forall results : list error,
  List.length results = List.length ss ->
  Spec.sensorCloses s (Spec.sensorCloseCalls ss results) = count_occ Nat.eq_dec ss s.
Proof.
  induction ss as [|s' ss IH]; intros results Hlen.
  - destruct results; reflexivity.
  - destruct results as [|r results]; [discriminate|].
    cbn [Spec.sensorCloseCalls combine map fst snd Spec.sensorCloses count_occ].
    fold (Spec.sensorCloseCalls ss results).
    rewrite IH by (cbn in Hlen; lia).
    destruct (Nat.eq_dec s' s) as [->|Hne].
    + rewrite Nat.eqb_refl. reflexivity.
    + replace (Nat.eqb s s') with false; [reflexivity|].
      symmetry. apply Nat.eqb_neq. congruence.
Qed.

Lemma fanCloses_closeCalls (f : FanDriver) (ss : list ThermoSensor) (results : list error) :
  Spec.fanCloses f (Spec.sensorCloseCalls ss results) = 0%nat.
Proof.
  unfold Spec.sensorCloseCalls.
  induction (combine ss results) as [|p l IH]; [reflexivity|]. exact IH.
Qed.

(** What the first call of [StopThermalControl] does. *)
Lemma StopThermalControl_first (hs : Heatsink) (sys : Sys E) :
  isStopped hs = false ->
  exists (fanErr : error) (sensorErrs : list error) (hs1 : Heatsink) (sys1 : Sys E),
    hs1 = setStopped hs /\
    List.length sensorErrs = List.length (sensors hs) /\
    StopThermalControl E hs sys =
      (Spec.aggregate (Spec.failures "error closing fan" [fanErr] ++
                       Spec.failures "error closing sensor" sensorErrs),
       hs1, sys1) /\
    isStopped hs1 = true /\
    calls sys1 = calls sys ++ CallFanClose (fan hs) fanErr ::
                              Spec.sensorCloseCalls (sensors hs) sensorErrs /\
    Spec.fanCloses (fan hs) (calls sys1) = S (Spec.fanCloses (fan hs) (calls sys)) /\
    (forall s, Spec.sensorCloses s (calls sys1)
               = (Spec.sensorCloses s (calls sys) + count_occ Nat.eq_dec (sensors hs) s)%nat) /\
    (NoDup (sensors hs) -> forall s, In s (sensors hs) ->
       Spec.sensorCloses s (calls sys1) = S (Spec.sensorCloses s (calls sys))) /\
    (forall sys' : Sys E,
       StopThermalControl E hs1 sys' = (Some ErrControllerStopped, hs1, sys')).
Proof.
  intros Hrun. unfold StopThermalControl at 1. rewrite Hrun.
  destruct (fanClose E (fan hs) (world sys)) as [fanErr w] eqn:Hf.
  destruct (closeSensors_spec (sensors hs)
              (match fanErr with Some e => [Wrap "error closing fan" e] | None => [] end)
              (called E (CallFanClose (fan hs) fanErr) w sys))
    as (results & w' & Hlen & Hcs).
  rewrite Hcs.
  exists fanErr, results, (setStopped hs),
    (mkSys E w' (calls (called E (CallFanClose (fan hs) fanErr) w sys)
                 ++ Spec.sensorCloseCalls (sensors hs) results)
             (logs (called E (CallFanClose (fan hs) fanErr) w sys))).
  assert (Hcount : forall s,
    Spec.sensorCloses s
      (calls sys ++ CallFanClose (fan hs) fanErr ::
       Spec.sensorCloseCalls (sensors hs) results)
    = (Spec.sensorCloses s (calls sys) + count_occ Nat.eq_dec (sensors hs) s)%nat).
  { intros s. rewrite sensorCloses_app. cbn [Spec.sensorCloses].
    rewrite (sensorCloses_closeCalls s _ _ Hlen). reflexivity. }
  split; [reflexivity|]. split; [exact Hlen|]. split.
  - replace (Spec.failures "error closing fan" [fanErr])
      with (match fanErr with Some e => [Wrap "error closing fan" e] | None => [] end)
      by (destruct fanErr; reflexivity).
    destruct (match fanErr with Some e => [Wrap "error closing fan" e] | None => [] end
              ++ Spec.failures "error closing sensor" results); reflexivity.
  - split; [reflexivity|].
    unfold called. cbn [calls logs]. rewrite <- app_assoc. cbn [app].
    split; [reflexivity|]. split; [|split; [|split]].
    + clear Hcount. induction (calls sys) as [|c cs IH].
      * cbn [app Spec.fanCloses]. rewrite Nat.eqb_refl, fanCloses_closeCalls. reflexivity.
      * destruct c; cbn [app Spec.fanCloses]; rewrite IH; lia.
    + exact Hcount.
    + intros Hnd s Hin. rewrite (Hcount s).
      assert (count_occ Nat.eq_dec (sensors hs) s = 1%nat).
      { apply NoDup_count_occ' ; assumption. }
      lia.
    + intros sys'. reflexivity.
Qed.

End Controller.

End HeatsinkFacts.

Module HeatsinkClaims.

Import Heatsink HeatsinkFacts Fixtures.




(** C9, amended.  [New] fails exactly when no configuration is given,
    the fan is nil, the sensor list is empty, a sensor is nil, or
    [MinTemperature >= MaxTemperature] holds as a float64 comparison;
    a sensor given twice is not looked for.  When it fails it returns
    no heatsink, and when it does not fail it returns one with a nil
    error. *)
Theorem New_fails_iff (Pow : float64 -> float64 -> float64) (E : Env)
    (config : option Config) (options : list (option Option)) :
  (snd (New Pow E config options) <> None <->
     config = None \/
     exists c, config = Some c /\
       (Fan c = None \/ Sensors c = [] \/ In None (Sensors c) \/
        geb (MinTemperature c) (MaxTemperature c) = true)) /\
  (snd (New Pow E config options) <> None -> fst (New Pow E config options) = None) /\
  (snd (New Pow E config options) = None ->
     exists hs, fst (New Pow E config options) = Some hs).
Proof.
  assert (Hnil : forall l : list (option ThermoSensor),
            existsb isNil l = true <-> In None l).
  { intros l. rewrite existsb_exists. split.
    - intros (x & Hin & Hx). destruct x; [discriminate|exact Hin].
    - intros Hin. exists None. split; [exact Hin|reflexivity]. }
  destruct config as [c|]; cbn [New].
  - unfold validate.
    destruct (Fan c) as [f|] eqn:HF; cbn [isNil].
    + destruct (Sensors c) as [|s ss] eqn:HS; cbn [List.length Nat.eqb].
      * repeat split; cbn [fst snd]; intros H; try reflexivity; try discriminate;
          try (exfalso; apply H; reflexivity).
        -- right. exists c. rewrite HF, HS. split; [reflexivity|]. right. left. reflexivity.
      * destruct (existsb isNil (s :: ss)) eqn:HN.
        -- repeat split; cbn [fst snd]; intros H; try reflexivity; try discriminate;
             try (exfalso; apply H; reflexivity).
           right. exists c. rewrite HF, HS. split; [reflexivity|].
           right. right. left. apply Hnil. exact HN.
        -- destruct (geb (MinTemperature c) (MaxTemperature c)) eqn:HT.
           ++ repeat split; cbn [fst snd]; intros H; try reflexivity; try discriminate;
                try (exfalso; apply H; reflexivity).
              right. exists c. rewrite HF, HS. split; [reflexivity|].
              right. right. right. exact HT.
           ++ try rewrite HF. repeat split; cbn [fst snd]; intros H;
                try (exfalso; apply H; reflexivity); try (eexists; reflexivity).
              exfalso. destruct H as [H|(c' & Hc' & H)]; [discriminate|].
              injection Hc' as <-. rewrite HF, HS in H.
              destruct H as [H|[H|[H|H]]]; try discriminate;
                [apply Hnil in H; rewrite H in HN; discriminate|congruence].
    + repeat split; cbn [fst snd]; intros H; try reflexivity; try discriminate;
        try (exfalso; apply H; reflexivity).
      right. exists c. split; [reflexivity|]. left. exact HF.
  - repeat split; cbn [fst snd]; intros H; try reflexivity; try discriminate;
      try (exfalso; apply H; reflexivity).
    left. reflexivity.
Qed.

(** C9 at work: a configuration with no sensor gives no heatsink. *)
Lemma New_fails_iff_witness :
  fst (New cube healthy (Some (mkConfig (Some 7%nat) [] (of_Z 35) (of_Z 45))) []) = None.
Proof.
  apply (proj1 (proj2 (New_fails_iff cube healthy
                         (Some (mkConfig (Some 7%nat) [] (of_Z 35) (of_Z 45))) []))).
  cbn. discriminate.
Defined.

(** C9 as stated fails: a configuration that gives the same sensor
    twice is accepted, and so is one whose lower bound is NaN, though
    [MinTemperature < MaxTemperature] does not hold for it. *)
Lemma New_duplicate_counterexample :
  ~ NoDup (Sensors configDup) /\
  (exists hs, New cube healthy (Some configDup) [] = (Some hs, None) /\
              sensors hs = [0%nat; 0%nat]) /\
  ltb S754_nan (of_Z 45) = false /\
  (exists hs, New cube healthy
                (Some (mkConfig (Some 7%nat) [Some 0%nat] S754_nan (of_Z 45))) []
              = (Some hs, None)).
Proof.
  split; [|split; [|split]].
  - intros H. inversion H as [|x l Hnin Hnd]. apply Hnin. left. reflexivity.
  - eexists. split; reflexivity.
  - reflexivity.
  - eexists. reflexivity.
Qed.

End HeatsinkClaims.

Module ControlLoopFacts.

Import Heatsink HeatsinkFacts.

Section Controller.

Variable E : Env.

Lemma poll_length (ss : list ThermoSensor) :
  forall w : W E, List.length (fst (Spec.poll E ss w)) = List.length ss.
Proof.
  induction ss as [|s ss IH]; intros w; [reflexivity|].
  cbn [Spec.poll]. destruct (sensorTemperature E s w) as [[temp err] w1].
  specialize (IH w1). destruct (Spec.poll E ss w1) as [rs w2].
  cbn [fst List.length] in *. rewrite IH. reflexivity.
Qed.

Lemma readSensors_spec (ss : list ThermoSensor) :
  forall (max : float64) (errs : list Err) (sys : Sys E),
  readSensors E ss max errs sys =
    (Spec.runningMax (fst (Spec.poll E ss (world sys))) max,
     errs ++ Spec.readFailures E ss (fst (Spec.poll E ss (world sys))),
     mkSys E (snd (Spec.poll E ss (world sys)))
           (calls sys ++ Spec.temperatureCalls ss (fst (Spec.poll E ss (world sys))))
           (logs sys)).
Proof.
  induction ss as [|s ss IH]; intros max errs sys.
  - cbn. rewrite !app_nil_r. destruct sys; reflexivity.
  - cbn [readSensors Spec.poll].
    destruct (sensorTemperature E s (world sys)) as [[temp err] w1] eqn:Ht.
    destruct err as [e|]; rewrite IH; unfold called; cbn [world calls logs];
      destruct (Spec.poll E ss w1) as [rs w2];
      cbn [fst snd Spec.runningMax Spec.readFailures Spec.temperatureCalls combine map];
      rewrite <- !app_assoc; reflexivity.
Qed.


Lemma readFailures_length (ss : list ThermoSensor) :
  forall rs : list (float64 * error),
  List.length rs = List.length ss ->
  (List.length (Spec.readFailures E ss rs)
   + List.length (Spec.successful rs) = List.length ss)%nat.
Proof.
  induction ss as [|s ss IH]; intros rs Hlen.
  - destruct rs; [reflexivity|discriminate].
  - destruct rs as [|[temp err] rs]; [discriminate|].
    cbn in Hlen. specialize (IH rs ltac:(lia)).
    destruct err; cbn [Spec.readFailures Spec.successful List.length]; lia.
Qed.


Lemma maxCoreTemp_spec (hs : Heatsink) (sys : Sys E) :
  let rs := fst (Spec.poll E (sensors hs) (world sys)) in
  let sys1 := mkSys E (snd (Spec.poll E (sensors hs) (world sys)))
                    (calls sys ++ Spec.temperatureCalls (sensors hs) rs) (logs sys) in
  maxCoreTemp E hs sys =
    if (List.length (Spec.readFailures E (sensors hs) rs) =? List.length (sensors hs))%nat
    then (MaxFloat64, Some (MultiErrs (Spec.readFailures E (sensors hs) rs)), sys1)
    else (Spec.runningMax rs SmallestNonzeroFloat64, None,
          logErrors E (Spec.readFailures E (sensors hs) rs) sys1).
Proof.
  cbv zeta. unfold maxCoreTemp. rewrite readSensors_spec. cbn [app]. reflexivity.
Qed.

Lemma logErrors_calls (errs : list Err) :
  forall sys : Sys E,
  calls (logErrors E errs sys) = calls sys /\ world (logErrors E errs sys) = world sys.
Proof.
  induction errs as [|e errs IH]; intros sys; [split; reflexivity|].
  cbn [logErrors]. destruct (IH (logged E (mkLog LevelError "failed to read temperature" (Some e)) sys)) as [H1 H2].
  rewrite H1, H2. split; reflexivity.
Qed.

Variable stopRequested : nat -> bool.

(** A turn that falls through leaves the struct as it was: nobody
    asked to stop and the controller was running. *)
Lemma turn_continues (i : nat) (hs hs1 : Heatsink) (sys sys1 : Sys E) :
  turn E stopRequested i hs sys = inl (hs1, sys1) ->
  hs1 = hs /\ stopRequested i = false /\ isStopped hs = false.
Proof.
  unfold turn. destruct (stopRequested i) eqn:Hreq.
  - destruct (isStopped hs) eqn:Hst.
    + unfold StopThermalControl. rewrite Hst, Hst. discriminate.
    + destruct (StopThermalControl_first E hs sys Hst)
        as (fanErr & sensorErrs & hs' & sys' & _ & _ & Heq & Hst' & _).
      rewrite Heq, Hst'. discriminate.
  - destruct (isStopped hs) eqn:Hst; [discriminate|].
    destruct (maxCoreTemp E hs sys) as [[temp err] sys0].
    destruct err; [discriminate|].
    destruct (fanSetDutyCycle E (fan hs) (dcCalc hs temp)
                (world (called E (CallRatio temp (dcCalc hs temp)) (world sys0) sys0)))
      as [err w].
    destruct err; [discriminate|].
    intros H. injection H as <- _. repeat split; reflexivity.
Qed.

Lemma afterTurns_same (k : nat) :
  forall (i : nat) (hs hs' : Heatsink) (sys sys' : Sys E),
  afterTurns E stopRequested k i hs sys = Some (hs', sys') -> hs' = hs.
Proof.
  induction k as [|k IH]; intros i hs hs' sys sys' H.
  - cbn in H. injection H as <- _. reflexivity.
  - cbn [afterTurns] in H.
    destruct (turn E stopRequested i hs sys) as [[hs1 sys1]|exit] eqn:Ht; [|discriminate].
    apply turn_continues in Ht. destruct Ht as [-> _]. exact (IH _ _ _ _ _ H).
Qed.

Lemma controlLoop_afterTurns (k : nat) :
  forall (i : nat) (hs hs' : Heatsink) (sys sys' : Sys E) (fuel : nat),
  afterTurns E stopRequested k i hs sys = Some (hs', sys') ->
  controlLoop E stopRequested (k + fuel) i hs sys
  = controlLoop E stopRequested fuel (k + i) hs' sys'.
Proof.
  induction k as [|k IH]; intros i hs hs' sys sys' fuel H.
  - cbn in H. injection H as <- <-. reflexivity.
  - cbn [afterTurns] in H. cbn [Nat.add controlLoop].
    destruct (turn E stopRequested i hs sys) as [[hs1 sys1]|exit]; [|discriminate].
    rewrite (IH _ _ _ _ _ fuel H). f_equal. lia.
Qed.

(** An iteration that is asked to stop, or finds the controller
    stopped, leaves the loop with the sentinel. *)
Lemma turn_stopped (i : nat) (hs : Heatsink) (sys : Sys E) :
  stopRequested i = true \/ isStopped hs = true ->
  exists hs' sys', turn E stopRequested i hs sys = inr (ErrControllerStopped, hs', sys')
                   /\ isStopped hs' = true.
Proof.
  intros H. unfold turn.
  destruct (stopRequested i) eqn:Hreq.
  - destruct (isStopped hs) eqn:Hst.
    + unfold StopThermalControl. rewrite Hst, Hst. eexists _, _. split; [reflexivity|exact Hst].
    + destruct (StopThermalControl_first E hs sys Hst)
        as (fanErr & sensorErrs & hs1 & sys1 & _ & _ & Heq & Hst1 & _).
      rewrite Heq, Hst1. eexists _, _. split; [reflexivity|exact Hst1].
  - destruct H as [H|H]; [discriminate|]. rewrite H.
    eexists _, _. split; [reflexivity|exact H].
Qed.

(** With a stop requested for the turn [i + k], the loop is over after
    [k + 1] turns at the latest. *)
Lemma controlLoop_terminates (k : nat) :
  forall (i : nat) (hs : Heatsink) (sys : Sys E) (fuel : nat),
  stopRequested (i + k) = true -> (k < fuel)%nat ->
  controlLoop E stopRequested fuel i hs sys <> None.
Proof.
  induction k as [|k IH]; intros i hs sys fuel Hreq Hfuel;
    (destruct fuel as [|fuel]; [lia|]); cbn [controlLoop].
  - rewrite Nat.add_0_r in Hreq.
    destruct (turn_stopped i hs sys (or_introl Hreq)) as (hs' & sys' & Ht & _).
    rewrite Ht. discriminate.
  - destruct (turn E stopRequested i hs sys) as [[hs1 sys1]|exit]; [|discriminate].
    apply IH; [|lia]. rewrite <- Hreq. f_equal. lia.
Qed.

Lemma deferredStop_stopped (hs : Heatsink) (sys : Sys E) :
  isStopped hs = true -> deferredStop E hs sys = (hs, sys).
Proof.
  intros H. unfold deferredStop, StopThermalControl. rewrite H. reflexivity.
Qed.


End Controller.

End ControlLoopFacts.

(* ================================================================= *)
(** ** The control loop: claims *)

Module ControlLoopClaims.

Import Heatsink HeatsinkFacts ControlLoopFacts Fixtures.



(** C10.  [StartThermalControl] has no way to return [nil]: whenever
    it returns, it returns an error.  When the loop is left because the
    controller is found stopped at the head of a cycle, after [k] cycles
    that went well, the error is the sentinel [ErrControllerStopped].
    And a stop request does end the call: with one made before the
    cycle [k], the call returns within [k + 1] cycles. *)
Theorem StartThermalControl_returns_error
    (E : Env) (stopRequested : nat -> bool) (hs : Heatsink) (sys : Sys E) :
  (forall fuel result hs' sys',
     StartThermalControl E stopRequested fuel hs sys = Some (result, hs', sys') ->
     result <> None) /\
  (forall k fuel hs' sys',
     afterTurns E stopRequested k 0 hs
       (logged E (mkLog LevelInfo "started thermal control" None) sys) = Some (hs', sys') ->
     stopRequested k = true \/ isStopped hs' = true ->
     (k < fuel)%nat ->
     exists hs'' sys'',
       StartThermalControl E stopRequested fuel hs sys
         = Some (Some ErrControllerStopped, hs'', sys'') /\
       isStopped hs'' = true) /\
  (forall k fuel,
     stopRequested k = true -> (k < fuel)%nat ->
     exists e hs' sys',
       StartThermalControl E stopRequested fuel hs sys = Some (Some e, hs', sys')).
Proof.
  split; [|split].
  - intros fuel result hs' sys'. unfold StartThermalControl.
    destruct (controlLoop E stopRequested fuel 0 hs _) as [[[err hs1] sys1]|]; [|discriminate].
    destruct (deferredStop E hs1 sys1). intros H. injection H as <- _ _. discriminate.
  - intros k fuel hs' sys' Hturns Hstop Hfuel.
    unfold StartThermalControl.
    replace fuel with (k + S (fuel - S k))%nat by lia.
    rewrite (controlLoop_afterTurns E stopRequested k 0 hs hs' _ sys' _ Hturns).
    cbn [controlLoop]. rewrite Nat.add_0_r.
    destruct (turn_stopped E stopRequested k hs' sys' Hstop) as (hs1 & sys1 & Ht & Hst).
    rewrite Ht, (deferredStop_stopped E hs1 sys1 Hst).
    exists hs1, sys1. split; [reflexivity|exact Hst].
  - intros k fuel Hreq Hfuel. unfold StartThermalControl.
    pose proof (controlLoop_terminates E stopRequested k 0 hs
                  (logged E (mkLog LevelInfo "started thermal control" None) sys)
                  fuel Hreq Hfuel) as Hterm.
    destruct (controlLoop E stopRequested fuel 0 hs _) as [[[err hs1] sys1]|]; [|congruence].
    destruct (deferredStop E hs1 sys1) as [hs2 sys2].
    exists err, hs2, sys2. reflexivity.
Qed.

(** C10 at work: two healthy sensors, and a stop during the second
    sleep. *)
Lemma StartThermalControl_returns_error_witness :
  exists hs'' sys'',
    StartThermalControl healthy (stopAt 2) 5 heatsink2 (boot healthy 0%nat)
      = Some (Some ErrControllerStopped, hs'', sys'') /\
    isStopped hs'' = true.
Proof.
  pose (cycle := [CallTemperature 0%nat (of_Z 36) None; CallTemperature 1%nat (of_Z 40) None;
                  CallRatio (of_Z 40) (of_dec 5 1); CallSetDutyCycle 7%nat (of_dec 5 1) None;
                  CallSleep second]).
  apply (proj1 (proj2 (StartThermalControl_returns_error healthy (stopAt 2) heatsink2
                         (boot healthy 0%nat))) 2%nat 5%nat heatsink2
           (mkSys healthy 6%nat (cycle ++ cycle)
                  [mkLog LevelInfo "started thermal control" None])).
  - reflexivity.
  - left. reflexivity.
  - lia.
Defined.

(** C1, where the code departs from it.  One sensor, reading -5
    degrees without error: the maximum over the successful readings is
    -5, yet [maxCoreTemp] gives 4.9e-324, the value its running maximum
    starts from, which no reading below it can replace.  On a heatsink
    calibrated from -10 to 0 degrees the fan is then driven at the
    ratio 1, where -5 degrees asks for 0.5. *)
Lemma maxCoreTemp_negative_reading :
  Spec.successful (fst (Spec.poll freezing (sensors heatsinkCold) 0%nat)) = [of_Z (-5)] /\
  Spec.maximum [of_Z (-5)] = Some (of_Z (-5)) /\
  fst (maxCoreTemp freezing heatsinkCold (boot freezing 0%nat))
    = (SmallestNonzeroFloat64, None) /\
  ltb (of_Z (-5)) SmallestNonzeroFloat64 = true /\
  turn freezing never 0 heatsinkCold (boot freezing 0%nat)
    = inl (heatsinkCold,
           mkSys freezing 2%nat
                 [CallTemperature 0%nat (of_Z (-5)) None;
                  CallRatio SmallestNonzeroFloat64 one;
                  CallSetDutyCycle 7%nat one None;
                  CallSleep second] []) /\
  dcCalc heatsinkCold (of_Z (-5)) = of_dec 5 1.
Proof.
  split; [reflexivity|]. split; [reflexivity|]. split; [vm_compute; reflexivity|].
  split; [vm_compute; reflexivity|]. split; [reflexivity|vm_compute; reflexivity].
Qed.

End ControlLoopClaims.

(* ================================================================= *)
(** ** The duty cyclers: claims *)

Module DutyCyclerClaims.

Import Heatsink F64Facts Fixtures.




End DutyCyclerClaims.

(* ================================================================= *)
(** ** Package fanpwm: further properties *)

Module FanpwmProps.

Import Fanpwm F64Facts F64Arith FanpwmFacts Fixtures.

Lemma applyOptions_task_free (options : list (option Option)) (dr : Driver) :
  task (startAsyncNopPWM (applyOptions options dr)) = TaskNop.
Proof. reflexivity. Qed.

Lemma setSpeed_keeps (val : string) (dr : Driver) :
  closeSignal (snd (setSpeed val dr)) = closeSignal dr /\
  task (snd (setSpeed val dr)) = task dr /\
  pwmPeriod (snd (setSpeed val dr)) = pwmPeriod dr /\
  minSpeedVal (snd (setSpeed val dr)) = minSpeedVal dr /\
  maxSpeedVal (snd (setSpeed val dr)) = maxSpeedVal dr /\
  devFault (snd (setSpeed val dr)) = devFault dr.
Proof.
  pose proof (setSpeed_cases val dr) as H. cbv zeta in H. rewrite H.
  destruct (devFault dr (List.length (history dr))); [repeat split|].
  destruct (devFault dr (S (List.length (history dr)))); repeat split.
Qed.


Section Platform.

Variable conv : float64 -> Z.

Lemma tryGenSinglePulse_keeps (dn up : Z) (dr : Driver) :
  closeSignal (snd (tryGenSinglePulse dn up dr)) = closeSignal dr.
Proof.
  unfold tryGenSinglePulse, setSpeedMin, setSpeedMax, sleep.
  destruct (setSpeed_keeps (minSpeedVal dr) dr) as (Hc1 & _).
  destruct (setSpeed (minSpeedVal dr) dr) as [err dr1]. cbn [snd] in Hc1.
  destruct err; [exact Hc1|].
  destruct (dn =? pwmPeriod dr); [exact Hc1|].
  set (dr2 := record (Sleep dn) dr1).
  destruct (setSpeed_keeps (maxSpeedVal dr2) dr2) as (Hc3 & _).
  destruct (setSpeed (maxSpeedVal dr2) dr2) as [err dr3]. cbn [snd] in Hc3.
  assert (Hc2 : closeSignal dr2 = closeSignal dr) by (subst dr2; exact Hc1).
  destruct err; [cbn [snd]; congruence|].
  destruct (up =? pwmPeriod dr); cbn [snd record closeSignal]; congruence.
Qed.


End Platform.





Lemma ltb_zero_not_gtb_one (r : float64) : ltb r zero = true -> gtb r one = false.
Proof.
  intros H. destruct (ltb_true_not_nan _ _ H) as [Hr _].
  apply (ltb_rank r zero Hr eq_refl) in H.
  unfold gtb. change (ltb one r = false). destruct (ltb one r) eqn:H1; [|reflexivity].
  apply (ltb_rank one r eq_refl Hr) in H1.
  assert (H01 : lt3 (rank zero) (rank one)) by (apply (ltb_rank zero one eq_refl eq_refl); reflexivity).
  exfalso. rank_solve.
Qed.

(** X3.  A ratio outside [0,1] is taken for the nearer end: above 1
    (also the positive infinity) [SetDutyCycle] does what it does for
    1.0, and below 0 what it does for 0.0, on any driver and in every
    respect: the calls on the device file, the result, the goroutine
    left behind. *)
Theorem SetDutyCycle_out_of_range (conv : float64 -> Z) (dr : Driver) (r : float64) :
  (gtb r one = true -> SetDutyCycle conv r dr = SetDutyCycle conv one dr) /\
  (ltb r zero = true -> SetDutyCycle conv r dr = SetDutyCycle conv zero dr).
Proof.
  unfold SetDutyCycle, calcDurations. split; intros H.
  - replace (clampRatio r) with (clampRatio one); [reflexivity|].
    unfold clampRatio at 2. rewrite H. reflexivity.
  - replace (clampRatio r) with (clampRatio zero); [reflexivity|].
    unfold clampRatio at 2. rewrite (ltb_zero_not_gtb_one r H), H. reflexivity.
Qed.

Lemma SetDutyCycle_out_of_range_witness :
  SetDutyCycle amd64 (of_Z 7) (defaultDriver noFault)
    = SetDutyCycle amd64 one (defaultDriver noFault) /\
  SetDutyCycle amd64 (S754_infinity true) (defaultDriver noFault)
    = SetDutyCycle amd64 zero (defaultDriver noFault).
Proof.
  split.
  - apply (proj1 (SetDutyCycle_out_of_range amd64 (defaultDriver noFault) (of_Z 7))).
    reflexivity.
  - apply (proj2 (SetDutyCycle_out_of_range amd64 (defaultDriver noFault) (S754_infinity true))).
    reflexivity.
Defined.


Lemma setSpeed_healthy (val : string) (dr : Driver) :
  (forall n, devFault dr n = None) ->
  setSpeed val dr = (None, extend (speedCalls val) dr).
Proof.
  intros H. pose proof (setSpeed_cases val dr) as Hc. cbv zeta in Hc.
  rewrite Hc, !H. reflexivity.
Qed.






Lemma extend_extend (evs evs' : list Event) (dr : Driver) :
  extend evs' (extend evs dr) = extend (evs ++ evs') dr.
Proof. unfold extend. cbn [name minSpeedVal maxSpeedVal pwmPeriod closeSignal task history devFault]. rewrite <- app_assoc. reflexivity. Qed.

Lemma bgCycle_healthy (dr : Driver) (dn up : Z) :
  (forall n, devFault dr n = None) ->
  task dr = TaskPWM dn up ->
  bgCycle dr = extend (Spec.pulse (minSpeedVal dr) (maxSpeedVal dr) dn up) dr.
Proof.
  intros Hok Htask. unfold bgCycle. rewrite Htask.
  unfold setSpeedMin, setSpeedMax, sleep.
  rewrite (setSpeed_healthy _ dr Hok). cbn [snd].
  rewrite setSpeed_healthy by exact Hok. cbn [snd].
  unfold Spec.pulse, extend, record.
  cbn [name minSpeedVal maxSpeedVal pwmPeriod closeSignal task history devFault].
  rewrite <- !app_assoc. reflexivity.
Qed.

Lemma bgCycles_healthy (k : nat) :
  forall (dr : Driver) (dn up : Z),
  (forall n, devFault dr n = None) ->
  task dr = TaskPWM dn up ->
  bgCycles k dr
  = extend (List.concat (repeat (Spec.pulse (minSpeedVal dr) (maxSpeedVal dr) dn up) k)) dr.
Proof.
  induction k as [|k IH]; intros dr dn up Hok Htask.
  - cbn. unfold extend. rewrite app_nil_r. destruct dr; reflexivity.
  - cbn [bgCycles repeat List.concat]. rewrite (bgCycle_healthy dr dn up Hok Htask).
    rewrite (IH _ dn up); [|exact Hok|exact Htask].
    cbn [extend minSpeedVal maxSpeedVal]. rewrite extend_extend. reflexivity.
Qed.

(** X5.  Pulse-width modulation on a device that works.  When the ratio
    splits the period into a low time [dn] and a high time [up], neither
    of them the whole period, [SetDutyCycle] plays one pulse itself --
    minimum level, [dn], maximum level, [up] -- and leaves a goroutine
    that plays the same pulse again in each of its cycles, and nothing
    else.  The two times of a pulse add up to the period. *)
Theorem SetDutyCycle_pulses (conv : float64 -> Z) (dr : Driver) (r : float64)
    (dn up : Z) (k : nat) :
  closeSignal dr = false ->
  task dr <> TaskExited ->
  (forall n, devFault dr n = None) ->
  calcDurations conv dr r = (dn, up, false) ->
  exists dr1,
    SetDutyCycle conv r dr = Some (None, dr1) /\
    task dr1 = TaskPWM dn up /\
    history (bgCycles k dr1)
    = history dr
      ++ List.concat (repeat (Spec.pulse (minSpeedVal dr) (maxSpeedVal dr) dn up) (S k)) /\
    (in_int64 (pwmPeriod dr) = true -> wrap64 (dn + up) = pwmPeriod dr).
Proof.
  intros Hopen Htask Hok Hcalc.
  assert (Hflat : (up =? pwmPeriod dr) = false /\ (dn =? pwmPeriod dr) = false).
  { unfold calcDurations in Hcalc. injection Hcalc as <- <- Hflat.
    apply orb_false_iff in Hflat. exact Hflat. }
  destruct Hflat as [Hup Hdn].
  assert (Hpulse : tryGenSinglePulse dn up dr
                   = (None, extend (Spec.pulse (minSpeedVal dr) (maxSpeedVal dr) dn up) dr)).
  { unfold tryGenSinglePulse, setSpeedMin, setSpeedMax, sleep.
    rewrite (setSpeed_healthy _ dr Hok), Hdn.
    rewrite setSpeed_healthy by exact Hok. rewrite Hup.
    unfold Spec.pulse, extend, record.
    cbn [name minSpeedVal maxSpeedVal pwmPeriod closeSignal task history devFault].
    rewrite <- !app_assoc. reflexivity. }
  exists (startAsyncPWM dn up (extend (Spec.pulse (minSpeedVal dr) (maxSpeedVal dr) dn up) dr)).
  split; [|split; [reflexivity|split]].
  - unfold SetDutyCycle, isClosed. rewrite Hopen, Hcalc, Hpulse.
    destruct (task dr); [reflexivity|reflexivity|congruence].
  - rewrite (bgCycles_healthy k _ dn up); [|exact Hok|reflexivity].
    cbn [repeat List.concat extend startAsyncPWM setTask history minSpeedVal maxSpeedVal].
    rewrite <- app_assoc. reflexivity.
  - intros HP. unfold calcDurations in Hcalc. injection Hcalc as <- <- _.
    rewrite Z.add_comm. apply split_adds_up; [exact HP|apply Duration_in_int64].
Qed.

(** A fifth of the default period: 40ms low and 10ms high. *)
Lemma SetDutyCycle_pulses_witness :
  exists dr1,
    SetDutyCycle amd64 (of_dec 2 1) (defaultDriver noFault) = Some (None, dr1) /\
    task dr1 = TaskPWM 40000000 10000000 /\
    Spec.writes (history (bgCycles 1 dr1)) = ["0"; "255"; "0"; "255"]%string.
Proof.
  destruct (SetDutyCycle_pulses amd64 (defaultDriver noFault) (of_dec 2 1)
              40000000 10000000 1)
    as (dr1 & Hset & Htask & Hhist & _).
  - reflexivity.
  - discriminate.
  - reflexivity.
  - vm_compute. reflexivity.
  - exists dr1. split; [exact Hset|]. split; [exact Htask|]. rewrite Hhist. reflexivity.
Defined.

End FanpwmProps.

(* ================================================================= *)
(** ** Package thermosense: properties *)

Module ThermosenseProps.

Import Thermosense Fixtures.

Lemma run_closed (acts : list Action) (s : Sensor) :
  closed s = true -> run acts s = (map Spec.closedAnswer acts, s).
Proof.
  intros Hc. induction acts as [|a acts IH]; [reflexivity|].
  destruct a; cbn [run map]; unfold Temperature, temperature, Close, close;
    rewrite Hc, IH; reflexivity.
Qed.

(** X6.  A sensor is closed once.  The first [Close] closes the device
    file, and marks the sensor closed also when the file reports an
    error.  After it the sensor never touches the file again: every
    [Temperature] gives +Inf with [ErrThermoSensorClosed], every
    [Close] gives [ErrThermoSensorClosed], and the sensor stays as it
    is. *)
Theorem closed_sensor_is_inert (s : Sensor) (acts : list Action) :
  closed s = false ->
  closed (snd (Close s)) = true /\
  history (snd (Close s)) = history s ++ [CloseFile] /\
  fst (Close s)
  = match devFault s (List.length (history s)) with
    | Some err => Some (Wrap "failed to close device file while closing sensor" err)
    | None => None
    end /\
  run acts (snd (Close s)) = (map Spec.closedAnswer acts, snd (Close s)).
Proof.
  intros Hopen.
  assert (Hc : closed (snd (Close s)) = true).
  { unfold Close, close. rewrite Hopen.
    destruct (devFault s _); reflexivity. }
  split; [exact Hc|]. split; [|split].
  - unfold Close, close. rewrite Hopen. destruct (devFault s _); reflexivity.
  - unfold Close, close. rewrite Hopen. cbn [setClosed history].
    destruct (devFault s _); reflexivity.
  - apply run_closed. exact Hc.
Qed.

Lemma closed_sensor_is_inert_witness :
  run [ActTemperature; ActClose; ActTemperature] (snd (Close coreSensor))
  = ([(Some Inf, Some ErrThermoSensorClosed); (None, Some ErrThermoSensorClosed);
      (Some Inf, Some ErrThermoSensorClosed)], snd (Close coreSensor)).
Proof.
  apply (closed_sensor_is_inert coreSensor [ActTemperature; ActClose; ActTemperature]).
  reflexivity.
Defined.

(** X7.  What [Temperature] returns.  With an error it always returns
    +Inf, never a number a caller could take for a reading.  Without an
    error the sensor was open, it has rewound the device file and
    scanned one integer from it, in that order and nothing else, and the
    reading is that integer of millidegrees turned into degrees. *)
Theorem Temperature_outcome (s s' : Sensor) (temp : float64) (err : error) :
  Temperature s = (temp, err, s') ->
  (err <> None -> temp = Inf) /\
  (err = None ->
     closed s = false /\
     history s' = history s ++ [Seek 0 0; Scan] /\
     exists t, devScan s (S (List.length (history s))) = inl t /\ temp = degCelsius t) /\
  closed s' = closed s.
Proof.
  unfold Temperature, temperature.
  destruct (closed s) eqn:Hc.
  - intros H. injection H as <- <- <-. repeat split; try reflexivity; try discriminate.
    exact Hc.
  - destruct (devFault s (List.length (history s))) as [e|].
    + intros H. injection H as <- <- <-. repeat split; try reflexivity; try discriminate.
      exact Hc.
    + cbn [record history]. rewrite length_app. cbn [List.length]. rewrite Nat.add_1_r.
      destruct (devScan s (S (List.length (history s)))) as [t|e] eqn:Hscan;
        intros H; injection H as <- <- <-.
      * split; [intros H; exfalso; apply H; reflexivity|]. split; [|exact Hc].
        intros _. split; [reflexivity|]. split.
        -- cbn [record history]. rewrite <- app_assoc. reflexivity.
        -- exists t. split; reflexivity.
      * repeat split; try reflexivity; try discriminate. exact Hc.
Qed.

Lemma Temperature_outcome_witness :
  exists t, devScan coreSensor 1 = inl t /\ of_Z 36 = degCelsius t.
Proof.
  destruct (Temperature_outcome coreSensor
              (record Scan (record (Seek 0 0) coreSensor)) (of_Z 36) None)
    as (_ & Hok & _).
  - vm_compute. reflexivity.
  - destruct (Hok eq_refl) as (_ & _ & Ht). exact Ht.
Defined.

Lemma forallb_range (P : Z -> bool) (lo : Z) (n : nat) :
  forallb P (map (fun i => lo + Z.of_nat i) (seq 0 n)) = true ->
  forall k, lo <= k < lo + Z.of_nat n -> P k = true.
Proof.
  intros H k Hk. rewrite forallb_forall in H. apply H.
  apply in_map_iff. exists (Z.to_nat (k - lo)). split; [lia|].
  apply in_seq. lia.
Qed.

(** X8.  Whole degrees are read exactly: for every whole number of degrees
    from -1000 to 1000, the reading of that many thousand millidegrees
    is that number of degrees, the correction term of [degCelsius]
    being zero. *)
Theorem degCelsius_whole_degrees (k : Z) :
  -1000 <= k <= 1000 -> degCelsius (1000 * k) = of_Z k.
Proof.
  intros Hk.
  pose proof (forallb_range
                (fun k => match SFcompare (degCelsius (1000 * k)) (of_Z k) with
                          | Some Eq => match degCelsius (1000 * k), of_Z k with
                                       | S754_zero a, S754_zero b => Bool.eqb a b
                                       | S754_finite a m e, S754_finite b m' e' =>
                                           Bool.eqb a b && Pos.eqb m m' && Z.eqb e e'
                                       | _, _ => false
                                       end
                          | _ => false
                          end)
                (-1000) 2001) as H.
  cbv beta in H. specialize (H ltac:(vm_compute; reflexivity) k ltac:(lia)).
  destruct (SFcompare (degCelsius (1000 * k)) (of_Z k)) as [[| |]|]; try discriminate.
  destruct (degCelsius (1000 * k)) as [a|a| |a m e], (of_Z k) as [b|b| |b m' e'];
    try discriminate.
  - apply Bool.eqb_prop in H. congruence.
  - apply andb_true_iff in H. destruct H as [H He].
    apply andb_true_iff in H. destruct H as [Ha Hm].
    apply Bool.eqb_prop in Ha. apply Pos.eqb_eq in Hm. apply Z.eqb_eq in He. congruence.
Qed.

Lemma degCelsius_whole_degrees_witness : degCelsius 36000 = of_Z 36.
Proof. apply (degCelsius_whole_degrees 36). lia. Defined.

End ThermosenseProps.

(* ================================================================= *)
(** ** Package heatsink, the constructor: properties *)

Module HeatsinkProps.

Import Heatsink F64Facts Fixtures.


Section Controller.

Variable Pow : float64 -> float64 -> float64.
Variable E : Env.



End Controller.


End HeatsinkProps.

(* ================================================================= *)
(** ** The control loop: further properties *)

Module ControlLoopProps.

Import Heatsink F64Facts HeatsinkFacts ControlLoopFacts Fixtures.

Lemma leb_refl (x : float64) : is_nan x = false -> leb x x = true.
Proof. intros H. apply (leb_rank x x H H). right. reflexivity. Qed.

Lemma leb_trans (x y z : float64) : leb x y = true -> leb y z = true -> leb x z = true.
Proof.
  intros H1 H2.
  destruct (leb_true_not_nan _ _ H1) as [Hx Hy].
  destruct (leb_true_not_nan _ _ H2) as [_ Hz].
  apply (leb_rank x y Hx Hy) in H1. apply (leb_rank y z Hy Hz) in H2.
  apply (leb_rank x z Hx Hz).
  destruct H1 as [H1|H1], H2 as [H2|H2].
  - left. rank_solve.
  - left. rewrite <- H2. exact H1.
  - left. rewrite H1. exact H2.
  - right. congruence.
Qed.

Lemma ltb_leb (x y : float64) : ltb x y = true -> leb x y = true.
Proof.
  intros H. destruct (ltb_true_not_nan _ _ H) as [Hx Hy].
  apply (leb_rank x y Hx Hy). left. apply (ltb_rank x y Hx Hy). exact H.
Qed.

(** The running maximum, from any start that is a number. *)
Lemma runningMax_bounds (rs : list (float64 * error)) :
  forall m0 : float64,
  is_nan m0 = false ->
  Forall (fun t => is_nan t = false) (Spec.successful rs) ->
  leb m0 (Spec.runningMax rs m0) = true /\
  (forall t, In t (Spec.successful rs) -> leb t (Spec.runningMax rs m0) = true) /\
  (Spec.runningMax rs m0 = m0 \/ In (Spec.runningMax rs m0) (Spec.successful rs)).
Proof.
  induction rs as [|[temp err] rs IH]; intros m0 Hm0 Hall.
  - cbn. split; [apply leb_refl; exact Hm0|]. split; [intros t []|left; reflexivity].
  - destruct err as [e|]; cbn [Spec.runningMax Spec.successful] in *.
    + apply IH; assumption.
    + inversion Hall as [|t l Ht Hl]; subst.
      destruct (gtb temp m0) eqn:Hgt.
      * destruct (IH temp Ht Hl) as (H1 & H2 & H3).
        split; [exact (leb_trans _ _ _ (ltb_leb _ _ Hgt) H1)|]. split.
        -- intros t [<-|Hin]; [exact H1|exact (H2 t Hin)].
        -- right. destruct H3 as [->|H3]; [left; reflexivity|right; exact H3].
      * destruct (IH m0 Hm0 Hl) as (H1 & H2 & H3).
        split; [exact H1|]. split.
        -- intros t [<-|Hin]; [|exact (H2 t Hin)].
           destruct (leb_or_gtb temp m0 Ht Hm0) as [H|H]; [|congruence].
           exact (leb_trans _ _ _ H H1).
        -- destruct H3 as [H3|H3]; [left; exact H3|right; right; exact H3].
Qed.

Section Controller.

Variable E : Env.

Lemma logErrors_logs (errs : list Err) :
  forall sys : Sys E,
  logErrors E errs sys
  = mkSys E (world sys) (calls sys) (logs sys ++ Spec.readErrorLogs errs).
Proof.
  induction errs as [|e errs IH]; intros sys.
  - cbn. rewrite app_nil_r. destruct sys; reflexivity.
  - cbn [logErrors Spec.readErrorLogs map]. rewrite IH. unfold logged. cbn [world calls logs].
    rewrite <- app_assoc. reflexivity.
Qed.

Lemma readFailures_some_success (ss : list ThermoSensor) :
  forall rs : list (float64 * error),
  List.length rs = List.length ss ->
  Spec.successful rs <> [] ->
  (List.length (Spec.readFailures E ss rs) =? List.length ss)%nat = false.
Proof.
  intros rs Hlen Hsome. apply Nat.eqb_neq.
  pose proof (readFailures_length E ss rs Hlen) as H.
  destruct (Spec.successful rs); [congruence|]. cbn [List.length] in H. lia.
Qed.

Lemma maxCoreTemp_with_success (hs : Heatsink) (sys : Sys E) :
  Spec.successful (fst (Spec.poll E (sensors hs) (world sys))) <> [] ->
  maxCoreTemp E hs sys
  = (Spec.runningMax (fst (Spec.poll E (sensors hs) (world sys))) SmallestNonzeroFloat64,
     None,
     mkSys E (snd (Spec.poll E (sensors hs) (world sys)))
           (calls sys ++ Spec.temperatureCalls (sensors hs)
                           (fst (Spec.poll E (sensors hs) (world sys))))
           (logs sys ++ Spec.readErrorLogs
                          (Spec.readFailures E (sensors hs)
                             (fst (Spec.poll E (sensors hs) (world sys)))))).
Proof.
  intros Hsome. rewrite maxCoreTemp_spec. cbv zeta.
  rewrite (readFailures_some_success (sensors hs) _ (poll_length E _ _) Hsome).
  rewrite logErrors_logs. reflexivity.
Qed.

(** X10.  One failing sensor is not the end.  When at least one sensor can
    be read, [maxCoreTemp] returns no error.  It has read every sensor
    once, in the order of the list, and done nothing else to the
    collaborators; it has logged one error for each sensor that failed,
    in that order, under the sensor's name.  The temperature it returns
    is the running maximum of the readings that succeeded, started
    from [math.SmallestNonzeroFloat64]. *)
Theorem maxCoreTemp_partial_failure (hs : Heatsink) (sys : Sys E) :
  Spec.successful (fst (Spec.poll E (sensors hs) (world sys))) <> [] ->
  maxCoreTemp E hs sys
  = (Spec.runningMax (fst (Spec.poll E (sensors hs) (world sys))) SmallestNonzeroFloat64,
     None,
     mkSys E (snd (Spec.poll E (sensors hs) (world sys)))
           (calls sys ++ Spec.temperatureCalls (sensors hs)
                           (fst (Spec.poll E (sensors hs) (world sys))))
           (logs sys ++ Spec.readErrorLogs
                          (Spec.readFailures E (sensors hs)
                             (fst (Spec.poll E (sensors hs) (world sys)))))).
Proof. exact (maxCoreTemp_with_success hs sys). Qed.

(** X11.  The temperature that [maxCoreTemp] returns without an error, when
    the readings are numbers: no reading that succeeded is above it,
    and it is one of those readings or the 4.9e-324 it started from;
    it is one of them, and so their maximum, as soon as one of them is
    above 4.9e-324. *)
Theorem maxCoreTemp_is_maximum (hs : Heatsink) (sys sys' : Sys E) (m : float64) :
  maxCoreTemp E hs sys = (m, None, sys') ->
  Forall (fun t => is_nan t = false)
         (Spec.successful (fst (Spec.poll E (sensors hs) (world sys)))) ->
  (forall t, In t (Spec.successful (fst (Spec.poll E (sensors hs) (world sys)))) ->
             leb t m = true) /\
  (m = SmallestNonzeroFloat64 \/
   In m (Spec.successful (fst (Spec.poll E (sensors hs) (world sys))))) /\
  (forall t, In t (Spec.successful (fst (Spec.poll E (sensors hs) (world sys)))) ->
             ltb SmallestNonzeroFloat64 t = true ->
             In m (Spec.successful (fst (Spec.poll E (sensors hs) (world sys))))).
Proof.
  intros Hmax Hall. rewrite maxCoreTemp_spec in Hmax. cbv zeta in Hmax.
  destruct (_ =? _)%nat; [discriminate|]. injection Hmax as <- _.
  destruct (runningMax_bounds _ SmallestNonzeroFloat64 eq_refl Hall) as (H0 & H1 & H2).
  split; [exact H1|]. split; [exact H2|].
  intros t Hin Hpos. destruct H2 as [H2|H2]; [|exact H2].
  exfalso. specialize (H1 t Hin). rewrite H2 in H1.
  pose proof (ltb_not_geb _ _ Hpos) as Hc. unfold geb in Hc.
  change (SFleb t SmallestNonzeroFloat64) with (leb t SmallestNonzeroFloat64) in Hc.
  congruence.
Qed.

Variable stopRequested : nat -> bool.


(** X13.  Starting a controller that is stopped already: the call returns
    [ErrControllerStopped] at once.  It reads no sensor, sets no duty
    cycle, closes nothing and sleeps not; it only logs that it
    started. *)
Theorem StartThermalControl_when_stopped (hs : Heatsink) (sys : Sys E) (fuel : nat) :
  isStopped hs = true ->
  StartThermalControl E stopRequested (S fuel) hs sys
  = Some (Some ErrControllerStopped, hs,
          mkSys E (world sys) (calls sys)
                (logs sys ++ [mkLog LevelInfo "started thermal control" None])).
Proof.
  intros Hst. unfold StartThermalControl. cbn [controlLoop]. unfold turn.
  destruct (stopRequested 0); unfold StopThermalControl; rewrite ?Hst;
    rewrite (deferredStop_stopped E hs _ Hst); reflexivity.
Qed.







End Controller.

(** Two healthy sensors, at 36 and 40 degrees. *)
Lemma maxCoreTemp_partial_failure_witness :
  fst (maxCoreTemp healthy heatsink2 (boot healthy 0%nat)) = (of_Z 40, None).
Proof.
  rewrite (maxCoreTemp_partial_failure healthy heatsink2 (boot healthy 0%nat)).
  - vm_compute. reflexivity.
  - discriminate.
Defined.

Lemma maxCoreTemp_is_maximum_witness :
  In (of_Z 40) (Spec.successful (fst (Spec.poll healthy (sensors heatsink2) 0%nat))).
Proof.
  destruct (maxCoreTemp_is_maximum healthy heatsink2 (boot healthy 0%nat)
              (snd (maxCoreTemp healthy heatsink2 (boot healthy 0%nat))) (of_Z 40))
    as (_ & _ & H).
  - vm_compute. reflexivity.
  - repeat constructor.
  - apply (H (of_Z 36)); [left; reflexivity|reflexivity].
Defined.


Lemma StartThermalControl_when_stopped_witness :
  exists sys',
    StartThermalControl healthy never 3 (setStopped heatsink2) (boot healthy 0%nat)
    = Some (Some ErrControllerStopped, setStopped heatsink2, sys') /\
    calls sys' = [].
Proof.
  eexists. split.
  - apply (StartThermalControl_when_stopped healthy never (setStopped heatsink2)
             (boot healthy 0%nat) 2). reflexivity.
  - reflexivity.
Defined.


End ControlLoopProps.

(* ================================================================= *)
(** ** The pulse split: bounds *)

Module DurationProps.

Import Fanpwm F64Facts F64Arith FanpwmFacts Fixtures.

Lemma shr_1_nonneg (m : Z) (r s : bool) :
  0 <= m ->
  shr_1 (Build_shr_record m r s) = Build_shr_record (m / 2) (Z.odd m) (r || s).
Proof.
  intros Hm. rewrite <- Z.div2_div.
  destruct m as [|p|p]; [reflexivity| |lia].
  destruct p; reflexivity.
Qed.

(** Shifting right by [k] bits divides by [2^k]; nothing is flagged
    as lost when the division is exact. *)
Lemma shr_iter (M : Z) (k : positive) :
  0 <= M ->
  exists r s,
    Pos.iter shr_1 (Build_shr_record M false false) k
    = Build_shr_record (M / 2 ^ Zpos k) r s /\
    (M mod 2 ^ Zpos k = 0 -> r = false /\ s = false).
Proof.
  intros HM. induction k as [|k IH] using Pos.peano_ind.
  - cbn [Pos.iter]. rewrite shr_1_nonneg by exact HM.
    exists (Z.odd M), false. split; [reflexivity|].
    intros H. change (2 ^ 1) with 2 in H. rewrite Zmod_odd in H.
    destruct (Z.odd M); [discriminate|split; reflexivity].
  - destruct IH as (r & s & Heq & Hex).
    assert (Hpow : 0 < 2 ^ Zpos k) by (apply Z.pow_pos_nonneg; lia).
    rewrite Pos.iter_succ, Heq, shr_1_nonneg by (apply Z.div_pos; lia).
    rewrite Z.div_div by lia.
    replace (2 ^ Zpos k * 2) with (2 ^ Zpos (Pos.succ k))
      by (rewrite Pos2Z.inj_succ, Z.pow_succ_r by lia; lia).
    eexists _, _. split; [reflexivity|].
    intros H. apply Z.div_exact in H; [|apply Z.pow_nonzero; lia].
    rewrite Pos2Z.inj_succ, Z.pow_succ_r in H by lia.
    set (c := M / (2 * 2 ^ Zpos k)) in H.
    assert (HM2 : M = (2 * c) * 2 ^ Zpos k) by lia.
    assert (Hmod : M mod 2 ^ Zpos k = 0) by (rewrite HM2; apply Z.mod_mul; lia).
    destruct (Hex Hmod) as [-> ->].
    rewrite HM2 at 1. rewrite Z.div_mul by lia.
    rewrite Z.odd_mul. split; reflexivity.
Qed.

(** Rounding to nearest never passes a bound that the format holds:
    a product that is at most [B * 2^0], for an integer [B] below 2^53,
    rounds to zero or to a number that is at most [B]. *)
Lemma binary_round_aux_bound (s : bool) (M : positive) (E B : Z) :
  E <= 0 -> 0 < B < 2 ^ 53 -> Zpos M <= B * 2 ^ (- E) ->
  binary_round_aux prec emax s (Zpos M) E loc_Exact = S754_zero s \/
  exists m e,
    binary_round_aux prec emax s (Zpos M) E loc_Exact = S754_finite s m e /\
    e <= 0 /\ Zpos m <= B * 2 ^ (- e).
Proof.
  intros HE HB HM.
  pose proof (digits2_pos_bounds M) as [Hlo Hhi].
  set (d := Zpos (digits2_pos M)) in *.
  assert (Hd : 0 < d) by (subst d; lia).
  assert (HdE : d + E <= 53).
  { assert (H : 2 ^ (d - 1) < 2 ^ (53 - E)).
    { assert (Hp : 0 < 2 ^ (- E)) by (apply Z.pow_pos_nonneg; lia).
      replace (2 ^ (53 - E)) with (2 ^ 53 * 2 ^ (- E))
        by (rewrite <- Z.pow_add_r by lia; f_equal; lia).
      assert (B * 2 ^ (- E) < 2 ^ 53 * 2 ^ (- E))
        by (apply Z.mul_lt_mono_pos_r; lia).
      lia. }
    apply Z.pow_lt_mono_r_iff in H; lia. }
  (* the first shift and the rounding *)
  assert (HA : exists m2 e1,
             (let '(mrs', e') := shr_fexp prec emax (Zpos M) E loc_Exact in
              (round_nearest_even (shr_m mrs') (loc_of_shr_record mrs'), e')) = (m2, e1) /\
             -1074 <= e1 <= 0 /\ 0 <= m2 <= B * 2 ^ (- e1) /\ m2 <= 2 ^ 53).
  { unfold shr_fexp, shr_record_of_loc, shr, fexp, emin, prec, emax.
    cbn [Zdigits2]. fold d.
    destruct (Z.max (d + E - 53) (3 - 1024 - 53) - E) as [|p|p] eqn:Hn.
    - exists (Zpos M), E. cbn [shr_m loc_of_shr_record round_nearest_even].
      split; [reflexivity|]. split; [lia|]. split; [lia|].
      assert (2 ^ d <= 2 ^ 53) by (apply Z.pow_le_mono_r; lia). lia.
    - rewrite iter_pos_iter.
      destruct (shr_iter (Zpos M) p ltac:(lia)) as (r & st & Heq & Hex).
      rewrite Heq. cbn [shr_m].
      set (e1 := E + Zpos p).
      assert (He1 : -1074 <= e1 <= 0) by (subst e1; lia).
      assert (Hpow : 0 < 2 ^ Zpos p) by (apply Z.pow_pos_nonneg; lia).
      set (K := B * 2 ^ (- e1)).
      assert (HK : B * 2 ^ (- E) = K * 2 ^ Zpos p).
      { subst K. replace (- E) with (- e1 + Zpos p) by (subst e1; lia).
        rewrite Z.pow_add_r by lia. lia. }
      assert (Hm1 : 0 <= Zpos M / 2 ^ Zpos p <= K).
      { split; [apply Z.div_pos; lia|]. apply Z.div_le_upper_bound; [lia|]. lia. }
      assert (Hm1' : Zpos M / 2 ^ Zpos p < 2 ^ 53).
      { apply Z.div_lt_upper_bound; [lia|].
        assert (2 ^ d <= 2 ^ (Zpos p + 53)) by (apply Z.pow_le_mono_r; lia).
        rewrite Z.pow_add_r in * by lia. lia. }
      assert (Hup : Zpos M mod 2 ^ Zpos p <> 0 -> Zpos M / 2 ^ Zpos p + 1 <= K).
      { intros Hne.
        pose proof (Z.div_mod (Zpos M) (2 ^ Zpos p) ltac:(lia)) as Hdm.
        pose proof (Z.mod_pos_bound (Zpos M) (2 ^ Zpos p) Hpow) as Hmb.
        nia. }
      exists (round_nearest_even (Zpos M / 2 ^ Zpos p)
                (loc_of_shr_record (Build_shr_record (Zpos M / 2 ^ Zpos p) r st))), e1.
      split; [reflexivity|]. split; [exact He1|].
      destruct (Z.eq_dec (Zpos M mod 2 ^ Zpos p) 0) as [Hz|Hnz].
      + destruct (Hex Hz) as [-> ->]. cbn [loc_of_shr_record round_nearest_even]. lia.
      + specialize (Hup Hnz).
        destruct r, st; cbn [loc_of_shr_record round_nearest_even];
          try destruct (Z.even _); lia.
    - exists (Zpos M), E. cbn [shr_m loc_of_shr_record round_nearest_even].
      split; [reflexivity|]. split; [lia|]. split; [lia|].
      assert (2 ^ d <= 2 ^ 53) by (apply Z.pow_le_mono_r; lia). lia. }
  destruct HA as (m2 & e1 & HA & He1 & Hm2 & Hm2').
  unfold binary_round_aux.
  destruct (shr_fexp prec emax (Zpos M) E loc_Exact) as [mrs' e'].
  injection HA as -> ->.
  (* the second shift *)
  destruct m2 as [|q|q]; [| |lia].
  - left. unfold shr_fexp, shr_record_of_loc, shr, fexp, emin, prec, emax.
    cbn [Zdigits2].
    destruct (Z.max (0 + e1 - 53) (3 - 1024 - 53) - e1) as [|p|p] eqn:Hn; try lia;
      reflexivity.
  - right.
    pose proof (digits2_pos_bounds q) as [Hqlo Hqhi].
    set (d2 := Zpos (digits2_pos q)) in *.
    assert (Hd2 : 0 < d2 <= 54).
    { split; [subst d2; lia|].
      assert (H : 2 ^ (d2 - 1) < 2 ^ 54) by (change (2 ^ 54) with (2 * 2 ^ 53); lia).
      apply Z.pow_lt_mono_r_iff in H; lia. }
    unfold shr_fexp, shr_record_of_loc, shr, fexp, emin, prec, emax.
    cbn [Zdigits2]. fold d2.
    destruct (Z.max (d2 + e1 - 53) (3 - 1024 - 53) - e1) as [|p|p] eqn:Hn.
    + cbn [shr_m]. replace (e1 <=? 1024 - 53) with true by (symmetry; apply Z.leb_le; lia).
      exists q, e1. split; [reflexivity|]. split; lia.
    + assert (Hp : p = 1%positive) by lia. subst p.
      assert (Hd54 : d2 = 54) by lia.
      assert (Hq : Zpos q = 2 ^ 53).
      { rewrite Hd54 in Hqlo. change (54 - 1) with 53 in Hqlo. lia. }
      cbn [iter_pos]. rewrite shr_1_nonneg by lia. cbn [shr_m].
      assert (Hhalf : Zpos q / 2 = 2 ^ 52).
      { rewrite Hq. change (2 ^ 53) with (2 ^ 52 * 2). apply Z.div_mul. lia. }
      rewrite Hhalf.
      destruct (2 ^ 52) as [|m3|m3] eqn:Hm3; [lia| |lia].
      replace (e1 + 1 <=? 1024 - 53) with true by (symmetry; apply Z.leb_le; lia).
      exists m3, (e1 + 1). split; [reflexivity|].
      assert (He : e1 < 0).
      { destruct (Z.eq_dec e1 0) as [->|]; [|lia]. cbn in Hm2. lia. }
      split; [lia|].
      replace (- e1) with (1 + - (e1 + 1)) in Hm2 by lia.
      rewrite Z.pow_add_r in Hm2 by lia. change (2 ^ 1) with 2 in Hm2.
      rewrite Hq in Hm2. change (2 ^ 53) with (2 * 2 ^ 52) in Hm2. rewrite Hm3 in Hm2. lia.
    + cbn [shr_m]. replace (e1 <=? 1024 - 53) with true by (symmetry; apply Z.leb_le; lia).
      exists q, e1. split; [reflexivity|]. split; lia.
Qed.

(** A float64 that is not above 1.0 has a value of at most 1. *)
Lemma ratio_at_most_one (m : positive) (e : Z) :
  valid_binary prec emax (S754_finite false m e) = true ->
  gtb (S754_finite false m e) one = false ->
  e < 0 /\ Zpos m <= 2 ^ (- e).
Proof.
  intros Hvalid Hgt.
  assert (Hcanon : Z.max (Zpos (digits2_pos m) + e - 53) (-1074) = e).
  { cbn [valid_binary] in Hvalid. unfold bounded, canonical_mantissa in Hvalid.
    apply andb_true_iff in Hvalid. destruct Hvalid as [Hc _].
    apply Z.eqb_eq in Hc. exact Hc. }
  pose proof (digits2_pos_bounds m) as [_ Hhi].
  unfold gtb, SFltb, one in Hgt. cbn [SFcompare] in Hgt.
  assert (Hc52 : Zpos 4503599627370496 = 2 ^ 52) by reflexivity.
  revert Hgt Hc52. generalize 4503599627370496%positive. intros c Hgt Hc52.
  destruct (Z.compare_spec (-52) e) as [He|He|He]; [| discriminate |].
  - subst e. change (Pos.compare_cont Eq c m) with (Pos.compare c m) in Hgt.
    destruct (Pos.compare_spec c m) as [Hcm|Hcm|Hcm]; try discriminate.
    + subst m. split; [lia|]. rewrite Hc52. change (- -52) with 52. lia.
    + split; [lia|]. change (- -52) with 52. lia.
  - split; [lia|].
    assert (2 ^ Zpos (digits2_pos m) <= 2 ^ (- e)) by (apply Z.pow_le_mono_r; lia).
    lia.
Qed.

Section Platform.

Variable conv : float64 -> Z.

(** The high time of the pulse, for a ratio that is a number. *)
Lemma up_bounds (P : Z) (r : float64) :
  valid_binary prec emax r = true ->
  is_nan r = false ->
  0 < P < 2 ^ 53 ->
  exists up, trunc (mul (clampRatio r) (of_Z P)) = Some up /\ 0 <= up <= P.
Proof.
  intros Hvalid Hnan HP.
  destruct (period_roundtrip P HP) as [Hone Hzero].
  destruct P as [|p|p]; try lia.
  destruct (of_Z_small p ltac:(lia)) as (mp & ep & Hof & Hdp & Hep & Hmp).
  unfold clampRatio.
  destruct (gtb r one) eqn:Hgt; [exists (Zpos p); split; [exact Hone|lia]|].
  destruct (ltb r zero) eqn:Hlt; [exists 0; split; [exact Hzero|lia]|].
  destruct r as [s|s| |s m e]; try discriminate.
  - exists 0. rewrite Hof. split; [reflexivity|lia].
  - destruct s; discriminate.
  - destruct s; [discriminate|].
    destruct (ratio_at_most_one m e Hvalid Hgt) as [He Hm].
    rewrite Hof. unfold mul. cbn [SFmul xorb].
    assert (Hpe : 0 < 2 ^ (- e)) by (apply Z.pow_pos_nonneg; lia).
    assert (Hpp : 0 < 2 ^ (- ep)) by (apply Z.pow_pos_nonneg; lia).
    destruct (binary_round_aux_bound false (m * mp) (e + ep) (Zpos p))
      as [Hz|(m' & e' & Hf & He' & Hm')]; [lia|lia| | |].
    + rewrite Pos2Z.inj_mul, Hmp.
      replace (- (e + ep)) with (- e + - ep) by lia.
      rewrite Z.pow_add_r by lia.
      assert (Zpos m * (Zpos p * 2 ^ (- ep)) <= 2 ^ (- e) * (Zpos p * 2 ^ (- ep)))
        by (apply Z.mul_le_mono_nonneg_r; lia).
      lia.
    + rewrite Hz. exists 0. split; [reflexivity|lia].
    + rewrite Hf. cbn [trunc cond_Zopp].
      rewrite Z.shiftl_div_pow2 by exact He'.
      assert (Hpe' : 0 < 2 ^ (- e')) by (apply Z.pow_pos_nonneg; lia).
      eexists. split; [reflexivity|]. split.
      * apply Z.div_pos; lia.
      * apply Z.div_le_upper_bound; lia.
Qed.

End Platform.

(** X15.  The two times of a pulse.  For every ratio that is a float64
    number (infinities included) and a period below 2^53 ns, the high
    time is the integer part of the clamped ratio times the period and
    lies between 0 and the period; the low time is the rest of the
    period, with no wrap-around; and the pulse is flat exactly when the
    high time is 0 or the whole period.  The platform's conversion of
    what int64 cannot hold is never called upon. *)
Theorem calcDurations_bounds (conv : float64 -> Z) (dr : Driver) (r : float64) :
  valid_binary prec emax r = true ->
  is_nan r = false ->
  0 < pwmPeriod dr < 2 ^ 53 ->
  exists up,
    trunc (mul (clampRatio r) (of_Z (pwmPeriod dr))) = Some up /\
    0 <= up <= pwmPeriod dr /\
    calcDurations conv dr r
    = (pwmPeriod dr - up, up, (up =? pwmPeriod dr) || (up =? 0)).
Proof.
  intros Hvalid Hnan HP.
  destruct (up_bounds (pwmPeriod dr) r Hvalid Hnan HP) as (up & Hup & Hb).
  exists up. split; [exact Hup|]. split; [exact Hb|].
  assert (Hin : forall z, 0 <= z <= pwmPeriod dr -> in_int64 z = true).
  { intros z Hz. unfold in_int64. apply andb_true_iff.
    split; [apply Z.leb_le|apply Z.ltb_lt]; lia. }
  unfold calcDurations, Duration_of_float64. rewrite Hup, (Hin up Hb).
  rewrite wrap64_small by (apply Hin; lia).
  f_equal. f_equal.
  destruct (Z.eqb_spec (pwmPeriod dr - up) (pwmPeriod dr)) as [H1|H1],
           (Z.eqb_spec up 0) as [H2|H2]; try reflexivity; lia.
Qed.

(** A third of the default period. *)
Lemma calcDurations_bounds_witness :
  exists up,
    0 <= up <= 50000000 /\
    calcDurations amd64 (defaultDriver noFault) (div one (of_Z 3))
    = (50000000 - up, up, (up =? 50000000) || (up =? 0)).
Proof.
  destruct (calcDurations_bounds amd64 (defaultDriver noFault) (div one (of_Z 3)))
    as (up & _ & Hb & Hcalc).
  - reflexivity.
  - reflexivity.
  - cbn. lia.
  - exists up. split; [exact Hb|exact Hcalc].
Defined.

End DurationProps.

(* ================================================================= *)
(** ** The control loop: one cycle *)

Module ControlCycleProps.

Import Heatsink F64Facts HeatsinkFacts ControlLoopFacts ControlLoopProps Fixtures.

(** X16.  One cycle of [StartThermalControl] that goes well.  With the
    controller running and at least one sensor that can be read, the
    cycle reads every sensor once, asks the duty cycler for the ratio
    of the temperature that [maxCoreTemp] gives, hands that very ratio
    to the fan, and, the fan accepting it, sleeps for the check period
    and goes on to the next cycle with the controller unchanged.  It
    makes no other call. *)
Theorem control_cycle (E : Env) (stopRequested : nat -> bool) (i : nat)
    (hs : Heatsink) (sys : Sys E) (w : W E) :
  stopRequested i = false ->
  isStopped hs = false ->
  Spec.successful (fst (Spec.poll E (sensors hs) (world sys))) <> [] ->
  (let m := Spec.runningMax (fst (Spec.poll E (sensors hs) (world sys)))
                            SmallestNonzeroFloat64 in
   fanSetDutyCycle E (fan hs) (dcCalc hs m) (snd (Spec.poll E (sensors hs) (world sys)))
   = (None, w)) ->
  let m := Spec.runningMax (fst (Spec.poll E (sensors hs) (world sys)))
                           SmallestNonzeroFloat64 in
  turn E stopRequested i hs sys
  = inl (hs,
         mkSys E w
               (calls sys
                ++ Spec.temperatureCalls (sensors hs)
                     (fst (Spec.poll E (sensors hs) (world sys)))
                ++ [CallRatio m (dcCalc hs m);
                    CallSetDutyCycle (fan hs) (dcCalc hs m) None;
                    CallSleep (chkPeriod hs)])
               (logs sys ++ Spec.readErrorLogs
                              (Spec.readFailures E (sensors hs)
                                 (fst (Spec.poll E (sensors hs) (world sys)))))).
Proof.
  intros Hreq Hst Hsome Hfan m. cbv zeta in Hfan. fold m in Hfan.
  unfold turn. rewrite Hreq, Hst.
  rewrite (maxCoreTemp_with_success E hs sys Hsome). fold m.
  unfold called. cbn [world calls logs]. rewrite Hfan.
  rewrite <- !app_assoc. reflexivity.
Qed.

(** Two healthy sensors at 36 and 40 degrees, on a heatsink set from
    35 to 45 degrees: the fan is driven at one half. *)
Lemma control_cycle_witness :
  exists sys',
    turn healthy never 0 heatsink2 (boot healthy 0%nat) = inl (heatsink2, sys') /\
    calls sys' = [CallTemperature 0%nat (of_Z 36) None;
                  CallTemperature 1%nat (of_Z 40) None;
                  CallRatio (of_Z 40) (of_dec 5 1);
                  CallSetDutyCycle 7%nat (of_dec 5 1) None;
                  CallSleep second].
Proof.
  eexists. split.
  - apply (control_cycle healthy never 0 heatsink2 (boot healthy 0%nat) 3%nat).
    + reflexivity.
    + reflexivity.
    + discriminate.
    + reflexivity.
  - vm_compute. reflexivity.
Defined.

End ControlCycleProps.

(* ================================================================= *)
(** ** Package thermosense: the constructor *)

Module SensorNewProps.

Import Thermosense Fixtures.

Lemma applyOptions_sensor (l : list (option string)) :
  forall s : Sensor,
  applyOptions (Spec.sensorOptions l) s = setName (Spec.lastName (name s) l) s.
Proof.
  induction l as [|o l IH]; intros s.
  - destruct s; reflexivity.
  - destruct o as [n|]; cbn [Spec.sensorOptions map option_map applyOptions
                              Spec.lastName fold_left].
    + fold (Spec.sensorOptions l). rewrite IH. unfold OptName.
      destruct (String.eqb n ""); reflexivity.
    + fold (Spec.sensorOptions l). apply IH.
Qed.

(** X17.  What [thermosense.New] gives.  When the device file cannot be
    opened it gives that error and no sensor.  Otherwise it gives an
    open sensor that has not touched its device file yet; nil options
    are skipped, and the sensor is named by the last [OptName] that is
    not empty, or by the file name when there is none. *)
Theorem New_sensor (filename : string) (fault : nat -> option Err) (scan : nat -> Z + Err)
    (l : list (option string)) :
  (exists s,
     New filename (inr (fault, scan)) (Spec.sensorOptions l) = (Some s, None) /\
     Name s = Spec.lastName filename l /\
     closed s = false /\
     history s = [] /\
     devFault s = fault /\ devScan s = scan) /\
  (forall err, New filename (inl err) (Spec.sensorOptions l) = (None, Some err)).
Proof.
  split; [|reflexivity].
  eexists. split; [reflexivity|]. rewrite applyOptions_sensor. repeat split; reflexivity.
Qed.

End SensorNewProps.

(* ================================================================= *)
(** ** Rounding to nearest *)

Module RoundingFacts.

Import F64Facts F64Arith DurationProps.

(** After a shift by [n] bits the two flags tell how what was lost
    compares with one half of the last place. *)
Lemma shr_iter_flags (D : Z) (n : positive) :
  0 <= D ->
  Pos.iter shr_1 (Build_shr_record D false false) n
  = Build_shr_record (D / 2 ^ Zpos n)
                     (Z.odd (D / 2 ^ (Zpos n - 1)))
                     (negb (D mod 2 ^ (Zpos n - 1) =? 0)).
Proof.
  intros HD. induction n as [|n IH] using Pos.peano_ind.
  - cbn [Pos.iter]. rewrite shr_1_nonneg by exact HD.
    change (2 ^ 1) with 2. change (1 - 1) with 0. change (2 ^ 0) with 1.
    rewrite Z.div_1_r, Z.mod_1_r. reflexivity.
  - rewrite Pos.iter_succ, IH.
    assert (Hp : 0 < 2 ^ (Zpos n - 1)) by (apply Z.pow_pos_nonneg; lia).
    assert (Hpn : 2 ^ Zpos n = 2 ^ (Zpos n - 1) * 2).
    { replace (Zpos n) with (Z.succ (Zpos n - 1)) at 1 by lia.
      rewrite Z.pow_succ_r by lia. lia. }
    rewrite shr_1_nonneg by (apply Z.div_pos; lia).
    rewrite Pos2Z.inj_succ. replace (Z.succ (Zpos n) - 1) with (Zpos n) by lia.
    rewrite Z.pow_succ_r by lia.
    rewrite Z.div_div by lia. rewrite (Z.mul_comm 2).
    f_equal.
    (* the sticky flag *)
    set (h := 2 ^ (Zpos n - 1)) in *.
    pose proof (Z.div_mod D h ltac:(lia)) as Hdm.
    pose proof (Z.mod_pos_bound D h Hp) as Hmb.
    set (q := D / h) in *. set (r0 := D mod h) in *.
    assert (Hmod : D mod 2 ^ Zpos n = (q mod 2) * h + r0).
    { rewrite Hpn.
      pose proof (Z.div_mod q 2 ltac:(lia)) as Hq.
      pose proof (Z.mod_pos_bound q 2 ltac:(lia)) as Hqb.
      symmetry. apply (Z.mod_unique_pos _ _ (q / 2)); [nia|]. nia. }
    rewrite Hmod, Zmod_odd.
    destruct (Z.odd q); cbn [orb].
    + symmetry. apply negb_true_iff. apply Z.eqb_neq. lia.
    + rewrite Z.mul_0_l, Z.add_0_l. reflexivity.
Qed.

(** What is kept after the shift, rounded by the two flags. *)
Lemma round_shift (D : Z) (n : positive) :
  0 <= D ->
  round_nearest_even
    (shr_m (iter_pos shr_1 n (Build_shr_record D false false)))
    (loc_of_shr_record (iter_pos shr_1 n (Build_shr_record D false false)))
  = Spec.nearestEven D (Zpos n).
Proof.
  intros HD. rewrite iter_pos_iter, shr_iter_flags by exact HD.
  cbn [shr_m]. unfold Spec.nearestEven.
  assert (Hp : 0 < 2 ^ (Zpos n - 1)) by (apply Z.pow_pos_nonneg; lia).
  assert (Hpn : 2 ^ Zpos n = 2 ^ (Zpos n - 1) * 2).
  { replace (Zpos n) with (Z.succ (Zpos n - 1)) at 1 by lia.
    rewrite Z.pow_succ_r by lia. lia. }
  set (h := 2 ^ (Zpos n - 1)) in *.
  pose proof (Z.div_mod D h ltac:(lia)) as Hdm.
  pose proof (Z.mod_pos_bound D h Hp) as Hmb.
  set (q := D / h) in *. set (r0 := D mod h) in *.
  assert (Hmod : D mod 2 ^ Zpos n = (q mod 2) * h + r0).
  { rewrite Hpn.
    pose proof (Z.div_mod q 2 ltac:(lia)) as Hq.
    pose proof (Z.mod_pos_bound q 2 ltac:(lia)) as Hqb.
    symmetry. apply (Z.mod_unique_pos _ _ (q / 2)); [nia|]. nia. }
  rewrite Hmod, Zmod_odd.
  destruct (Z.odd q) eqn:Hq; destruct (r0 =? 0) eqn:Hr0; cbn [negb loc_of_shr_record round_nearest_even].
  - apply Z.eqb_eq in Hr0. rewrite Hr0, Z.add_0_r, Z.mul_1_l.
    rewrite Z.ltb_irrefl, Z.eqb_refl. cbn [orb andb].
    rewrite <- Z.negb_odd. destruct (Z.odd (D / 2 ^ Zpos n)); reflexivity.
  - apply Z.eqb_neq in Hr0.
    replace (h <? 1 * h + r0) with true by (symmetry; apply Z.ltb_lt; lia). reflexivity.
  - apply Z.eqb_eq in Hr0. rewrite Hr0.
    replace (h <? 0 * h + 0) with false by (symmetry; apply Z.ltb_ge; lia).
    replace (0 * h + 0 =? h) with false by (symmetry; apply Z.eqb_neq; lia). reflexivity.
  - replace (h <? 0 * h + r0) with false by (symmetry; apply Z.ltb_ge; lia).
    replace (0 * h + r0 =? h) with false by (symmetry; apply Z.eqb_neq; lia). reflexivity.
Qed.

Lemma digits_unique (q : positive) (k : Z) :
  2 ^ (k - 1) <= Zpos q < 2 ^ k -> Zpos (digits2_pos q) = k.
Proof.
  intros [Hlo Hhi]. pose proof (digits2_pos_bounds q) as [Hlo' Hhi'].
  set (d := Zpos (digits2_pos q)) in *.
  assert (Hd : 0 < d) by (subst d; lia).
  assert (Hk : 0 < k).
  { destruct (Z_lt_le_dec 0 k) as [H|H]; [exact H|exfalso].
    assert (2 ^ k <= 2 ^ 0) by (apply Z.pow_le_mono_r; lia).
    change (2 ^ 0) with 1 in *. lia. }
  assert (H1 : 2 ^ (d - 1) < 2 ^ k) by lia.
  assert (H2 : 2 ^ (k - 1) < 2 ^ d) by lia.
  apply Z.pow_lt_mono_r_iff in H1; [|lia|lia].
  apply Z.pow_lt_mono_r_iff in H2; [|lia|lia].
  lia.
Qed.

Lemma digits_scaled (M D : positive) (k : Z) :
  0 <= k -> Zpos D = Zpos M * 2 ^ k ->
  Zpos (digits2_pos D) = Zpos (digits2_pos M) + k.
Proof.
  intros Hk HD. pose proof (digits2_pos_bounds M) as [Hlo Hhi].
  apply digits_unique. rewrite HD.
  assert (Hp : 0 < 2 ^ k) by (apply Z.pow_pos_nonneg; lia).
  replace (Zpos (digits2_pos M) + k - 1) with ((Zpos (digits2_pos M) - 1) + k) by lia.
  rewrite !Z.pow_add_r by lia. split; nia.
Qed.

Lemma nearestEven_exact (M n : Z) :
  0 <= M -> 1 <= n -> Spec.nearestEven (M * 2 ^ n) n = M.
Proof.
  intros HM Hn. unfold Spec.nearestEven.
  assert (Hp : 0 < 2 ^ n) by (apply Z.pow_pos_nonneg; lia).
  assert (Hh : 0 < 2 ^ (n - 1)) by (apply Z.pow_pos_nonneg; lia).
  rewrite Z.div_mul, Z.mod_mul by lia.
  replace (2 ^ (n - 1) <? 0) with false by (symmetry; apply Z.ltb_ge; lia).
  replace (0 =? 2 ^ (n - 1)) with false by (symmetry; apply Z.eqb_neq; lia).
  reflexivity.
Qed.

Lemma nearestEven_scale (M k n : Z) :
  0 <= M -> 0 <= k -> 1 <= n ->
  Spec.nearestEven (M * 2 ^ k) (n + k) = Spec.nearestEven M n.
Proof.
  intros HM Hk Hn. unfold Spec.nearestEven.
  assert (Hpk : 0 < 2 ^ k) by (apply Z.pow_pos_nonneg; lia).
  assert (Hpn : 0 < 2 ^ n) by (apply Z.pow_pos_nonneg; lia).
  assert (Hh : 0 < 2 ^ (n - 1)) by (apply Z.pow_pos_nonneg; lia).
  rewrite Z.pow_add_r by lia.
  replace (n + k - 1) with ((n - 1) + k) by lia. rewrite Z.pow_add_r by lia.
  rewrite Z.div_mul_cancel_r by lia.
  rewrite Z.mul_mod_distr_r by lia.
  set (r := M mod 2 ^ n). set (h := 2 ^ (n - 1)) in *. set (t := 2 ^ k) in *.
  assert (E1 : (h * t <? r * t) = (h <? r)).
  { destruct (Z.ltb_spec h r); [apply Z.ltb_lt|apply Z.ltb_ge]; nia. }
  assert (E2 : (r * t =? h * t) = (r =? h)).
  { destruct (Z.eqb_spec r h); [apply Z.eqb_eq|apply Z.eqb_neq]; nia. }
  rewrite E1, E2. reflexivity.
Qed.

(** The rounded mantissa of a number with [53 + n] bits has 53 bits,
    or is the carry 2^53. *)
Lemma nearestEven_bounds (M : positive) (n : Z) :
  1 <= n -> Zpos (digits2_pos M) = 53 + n ->
  2 ^ 52 <= Spec.nearestEven (Zpos M) n <= 2 ^ 53.
Proof.
  intros Hn Hd. pose proof (digits2_pos_bounds M) as [Hlo Hhi]. rewrite Hd in Hlo, Hhi.
  assert (Hpn : 0 < 2 ^ n) by (apply Z.pow_pos_nonneg; lia).
  replace (53 + n - 1) with (52 + n) in Hlo by lia.
  rewrite Z.pow_add_r in Hlo, Hhi by lia.
  assert (H1 : 2 ^ 52 <= Zpos M / 2 ^ n) by (apply Z.div_le_lower_bound; lia).
  assert (H2 : Zpos M / 2 ^ n < 2 ^ 53) by (apply Z.div_lt_upper_bound; lia).
  unfold Spec.nearestEven. destruct (_ || _); lia.
Qed.

(** A mantissa that fits its exponent is left as it is. *)
Lemma binary_round_aux_canonical (s : bool) (m : positive) (e : Z) :
  canonical_mantissa prec emax m e = true ->
  binary_round_aux prec emax s (Zpos m) e loc_Exact
  = if e <=? emax - prec then S754_finite s m e else S754_infinity s.
Proof.
  intros Hc. unfold canonical_mantissa in Hc. apply Z.eqb_eq in Hc.
  assert (Hs : shr_fexp prec emax (Zpos m) e loc_Exact
               = (Build_shr_record (Zpos m) false false, e)).
  { unfold shr_fexp, shr_record_of_loc. cbn [Zdigits2]. rewrite Hc, Z.sub_diag. reflexivity. }
  unfold binary_round_aux. rewrite Hs. cbn [shr_m loc_of_shr_record round_nearest_even].
  rewrite Hs. cbn [shr_m]. reflexivity.
Qed.

End RoundingFacts.

Module RoundingScaled.

Import F64Facts F64Arith DurationProps RoundingFacts.

(** An exact number that is spread over its 53 bits or sits at the
    smallest exponent. *)
Lemma roundScaled_exact (m D : positive) (f : Z) :
  -1074 <= f ->
  Z.max (Zpos (digits2_pos m) + f - 53) (-1074) = f ->
  Zpos D = Zpos m * 2 ^ (f + 1074) ->
  Spec.roundScaled D = if f <=? emax - prec then S754_finite false m f else S754_infinity false.
Proof.
  intros Hf Hc HD.
  pose proof (digits_scaled m D (f + 1074) ltac:(lia) HD) as HdD.
  pose proof (digits2_pos_bounds m) as [Hlo Hhi].
  set (d := Zpos (digits2_pos m)) in *.
  unfold Spec.roundScaled. rewrite HdD.
  destruct (d + (f + 1074) <=? 53) eqn:Hle.
  - apply Z.leb_le in Hle.
    assert (f = -1074) by lia. subst f.
    change (-1074 + 1074) with 0 in HD. change (2 ^ 0) with 1 in HD.
    assert (D = m) by lia. subst D. reflexivity.
  - apply Z.leb_gt in Hle.
    assert (Hd : d = 53) by lia.
    replace (d + (f + 1074) - 53) with (f + 1074) by lia.
    rewrite HD, nearestEven_exact by lia.
    assert (Hlt : Zpos m < 2 ^ 53) by (rewrite Hd in Hhi; exact Hhi).
    replace (Zpos m =? 2 ^ 53) with false by (symmetry; apply Z.eqb_neq; lia).
    unfold Spec.finiteOrInf. replace (f + 1074 - 1074) with f by lia.
    reflexivity.
Qed.

(** Rounding depends on the value only: [binary_round] of a mantissa
    and an exponent is the nearest float64 to the number they stand
    for. *)
Lemma binary_round_scaled (M D : positive) (E : Z) :
  -1074 <= E -> Zpos D = Zpos M * 2 ^ (E + 1074) ->
  binary_round prec emax false M E = Spec.roundScaled D.
Proof.
  intros HE HD.
  pose proof (digits_scaled M D (E + 1074) ltac:(lia) HD) as HdD.
  pose proof (digits2_pos_bounds M) as [Hlo Hhi].
  set (d := Zpos (digits2_pos M)) in *.
  assert (Hd : 0 < d) by (subst d; lia).
  unfold binary_round, shl_align, fexp, emin, prec, emax. fold d.
  change (3 - 1024 - 53) with (-1074).
  set (f := Z.max (d + E - 53) (-1074)).
  destruct (f - E) as [|p|p] eqn:Hp.
  - (* the mantissa fits already *)
    assert (Hf : f = E) by lia.
    rewrite binary_round_aux_canonical
      by (unfold canonical_mantissa, fexp, emin, prec, emax; apply Z.eqb_eq; fold d;
          change (3 - 1024 - 53) with (-1074); fold f; lia).
    symmetry. apply roundScaled_exact; [lia| |exact HD].
    fold d. fold f. lia.
  - (* too many bits: shift right and round *)
    assert (Hn : d = 53 + Zpos p) by lia.
    assert (Hf : f = E + Zpos p) by lia.
    unfold binary_round_aux, shr_fexp, shr_record_of_loc, shr, fexp, emin, prec, emax.
    cbn [Zdigits2]. fold d. change (3 - 1024 - 53) with (-1074). fold f. rewrite Hp.
    rewrite (round_shift (Zpos M) p) by lia.
    pose proof (nearestEven_bounds M (Zpos p) ltac:(lia) Hn) as Hb.
    unfold Spec.roundScaled. rewrite HdD. fold d.
    replace (d + (E + 1074) <=? 53) with false by (symmetry; apply Z.leb_gt; lia).
    replace (d + (E + 1074) - 53) with (Zpos p + (E + 1074)) by lia.
    rewrite HD, nearestEven_scale by lia.
    set (m2 := Spec.nearestEven (Zpos M) (Zpos p)) in *.
    destruct (Z.eqb_spec m2 (2 ^ 53)) as [Hc|Hc].
    + (* the carry *)
      rewrite Hc.
      assert (Hd54 : Zdigits2 (2 ^ 53) = 54) by reflexivity.
      rewrite Hd54.
      replace (Z.max (54 + (E + Zpos p) - 53) (-1074) - (E + Zpos p)) with 1 by lia.
      cbn [iter_pos]. rewrite shr_1_nonneg by lia. cbn [shr_m].
      change (2 ^ 53 / 2) with (2 ^ 52).
      unfold Spec.finiteOrInf.
      replace (Zpos p + (E + 1074) + 1 - 1074) with (E + Zpos p + 1) by lia.
      destruct (2 ^ 52) as [|q|q] eqn:Hq; try discriminate.
      reflexivity.
    + assert (Hm2 : 2 ^ 52 <= m2 < 2 ^ 53) by lia.
      destruct m2 as [|q|q]; try lia.
      assert (Hdq : Zpos (digits2_pos q) = 53) by (apply digits_unique; exact Hm2).
      cbn [Zdigits2]. rewrite Hdq.
      replace (Z.max (53 + (E + Zpos p) - 53) (-1074) - (E + Zpos p)) with 0 by lia.
      cbn [shr_m]. unfold Spec.finiteOrInf.
      replace (Zpos p + (E + 1074) - 1074) with (E + Zpos p) by lia.
      reflexivity.
  - (* too few bits: shift left, exactly *)
    assert (Hf : f = E - Zpos p) by lia.
    assert (Hv : Zpos (Pos.iter xO M p) = Zpos M * 2 ^ Zpos p) by apply iter_xO_value.
    assert (Hdg : Zpos (digits2_pos (Pos.iter xO M p)) = d + Zpos p)
      by (rewrite iter_xO_digits, Pos2Z.inj_add; reflexivity).
    rewrite binary_round_aux_canonical
      by (unfold canonical_mantissa, fexp, emin, prec, emax; apply Z.eqb_eq;
          rewrite Hdg; change (3 - 1024 - 53) with (-1074); lia).
    symmetry. apply roundScaled_exact; [lia|rewrite Hdg; lia|].
    rewrite HD, Hv. replace (E + 1074) with (Zpos p + (f + 1074)) by lia.
    rewrite Z.pow_add_r by lia. lia.
Qed.

End RoundingScaled.

Module RoundingOrder.

Import F64Facts F64Arith DurationProps RoundingFacts RoundingScaled.

Lemma canonical_facts (m : positive) (e : Z) :
  canonical_mantissa prec emax m e = true ->
  -1074 <= e /\ Zpos (digits2_pos m) <= 53 /\ (-1074 < e -> Zpos (digits2_pos m) = 53).
Proof.
  unfold canonical_mantissa, fexp, emin, prec, emax. intros H. apply Z.eqb_eq in H.
  change (3 - 1024 - 53) with (-1074) in H. lia.
Qed.

(** Among float64 numbers a larger exponent means a larger number. *)
Lemma canonical_lt (m1 m2 : positive) (e1 e2 : Z) :
  canonical_mantissa prec emax m1 e1 = true ->
  canonical_mantissa prec emax m2 e2 = true ->
  e1 < e2 ->
  Zpos m1 * 2 ^ (e1 + 1074) < Zpos m2 * 2 ^ (e2 + 1074).
Proof.
  intros H1 H2 He.
  destruct (canonical_facts m1 e1 H1) as (He1 & Hd1 & _).
  destruct (canonical_facts m2 e2 H2) as (He2 & _ & Hd2).
  specialize (Hd2 ltac:(lia)).
  pose proof (digits2_pos_bounds m1) as [_ Hhi1].
  pose proof (digits2_pos_bounds m2) as [Hlo2 _]. rewrite Hd2 in Hlo2.
  change (53 - 1) with 52 in Hlo2.
  assert (Hm1 : Zpos m1 < 2 ^ 53).
  { assert (2 ^ Zpos (digits2_pos m1) <= 2 ^ 53) by (apply Z.pow_le_mono_r; lia). lia. }
  assert (Hp1 : 0 < 2 ^ (e1 + 1074)) by (apply Z.pow_pos_nonneg; lia).
  replace (e2 + 1074) with ((e2 - e1 - 1) + 1 + (e1 + 1074)) by lia.
  set (a := e1 + 1074) in *. set (k := e2 - e1 - 1).
  assert (Hk : 0 <= k) by (subst k; lia).
  rewrite (Z.pow_add_r 2 (k + 1) a) by lia. rewrite (Z.pow_add_r 2 k 1) by lia.
  change (2 ^ 1) with 2.
  assert (Hq : 1 <= 2 ^ k) by (apply (Z.pow_le_mono_r 2 0); lia).
  change (2 ^ 53) with (2 ^ 52 * 2) in Hm1.
  assert (Zpos m1 * 2 ^ a < 2 ^ 52 * 2 * 2 ^ a) by (apply Z.mul_lt_mono_pos_r; lia).
  assert (2 ^ 52 * (2 * 2 ^ a) <= Zpos m2 * (2 * 2 ^ a)) by (apply Z.mul_le_mono_nonneg_r; lia).
  assert (Zpos m2 * (2 * 2 ^ a) * 1 <= Zpos m2 * (2 * 2 ^ a) * 2 ^ k)
    by (apply Z.mul_le_mono_nonneg_l; lia).
  lia.
Qed.

Lemma canonical_exp_mono (m1 m2 : positive) (e1 e2 : Z) :
  canonical_mantissa prec emax m1 e1 = true ->
  canonical_mantissa prec emax m2 e2 = true ->
  Zpos m1 * 2 ^ (e1 + 1074) <= Zpos m2 * 2 ^ (e2 + 1074) ->
  e1 <= e2.
Proof.
  intros H1 H2 Hle. destruct (Z_le_gt_dec e1 e2) as [H|H]; [exact H|exfalso].
  pose proof (canonical_lt m2 m1 e2 e1 H2 H1 ltac:(lia)). lia.
Qed.

Lemma digits_mono (D1 D2 : positive) :
  Zpos D1 <= Zpos D2 -> Zpos (digits2_pos D1) <= Zpos (digits2_pos D2).
Proof.
  intros H. pose proof (digits2_pos_bounds D1) as [Hlo1 _].
  pose proof (digits2_pos_bounds D2) as [_ Hhi2].
  assert (Hlt : 2 ^ (Zpos (digits2_pos D1) - 1) < 2 ^ Zpos (digits2_pos D2)) by lia.
  apply Z.pow_lt_mono_r_iff in Hlt; lia.
Qed.

Lemma nearestEven_mono (D1 D2 n : Z) :
  1 <= n -> 0 <= D1 <= D2 -> Spec.nearestEven D1 n <= Spec.nearestEven D2 n.
Proof.
  intros Hn HD. unfold Spec.nearestEven.
  assert (Hp : 0 < 2 ^ n) by (apply Z.pow_pos_nonneg; lia).
  assert (Hh : 0 < 2 ^ (n - 1)) by (apply Z.pow_pos_nonneg; lia).
  pose proof (Z.div_mod D1 (2 ^ n) ltac:(lia)) as E1.
  pose proof (Z.div_mod D2 (2 ^ n) ltac:(lia)) as E2.
  pose proof (Z.mod_pos_bound D1 (2 ^ n) Hp) as B1.
  pose proof (Z.mod_pos_bound D2 (2 ^ n) Hp) as B2.
  assert (Hq : D1 / 2 ^ n <= D2 / 2 ^ n) by (apply Z.div_le_mono; lia).
  set (q1 := D1 / 2 ^ n) in *. set (q2 := D2 / 2 ^ n) in *.
  set (r1 := D1 mod 2 ^ n) in *. set (r2 := D2 mod 2 ^ n) in *.
  set (h := 2 ^ (n - 1)) in *.
  destruct (Z.eq_dec q1 q2) as [Heq|Hne].
  - assert (Hr : r1 <= r2) by nia. rewrite <- Heq.
    destruct (Z.ltb_spec h r1), (Z.ltb_spec h r2), (Z.eqb_spec r1 h), (Z.eqb_spec r2 h),
             (Z.odd q1); cbn [orb andb]; lia.
  - destruct (_ || _), (_ || _); lia.
Qed.

(** Rounding keeps the order. *)
Lemma rounded_mono (D1 D2 : positive) :
  Zpos D1 <= Zpos D2 -> Spec.rounded D1 <= Spec.rounded D2.
Proof.
  intros HD. pose proof (digits_mono D1 D2 HD) as Hd.
  pose proof (digits2_pos_bounds D1) as [Hlo1 Hhi1].
  pose proof (digits2_pos_bounds D2) as [Hlo2 Hhi2].
  unfold Spec.rounded.
  set (d1 := Zpos (digits2_pos D1)) in *. set (d2 := Zpos (digits2_pos D2)) in *.
  destruct (Z.leb_spec d1 53) as [H1|H1], (Z.leb_spec d2 53) as [H2|H2]; try lia.
  - (* exact below, rounded above *)
    pose proof (nearestEven_bounds D2 (d2 - 53) ltac:(lia) ltac:(fold d2; lia)) as [Hb _].
    assert (Hp : 0 < 2 ^ (d2 - 53)) by (apply Z.pow_pos_nonneg; lia).
    assert (Hlow : 2 ^ (d2 - 1) <= Spec.nearestEven (Zpos D2) (d2 - 53) * 2 ^ (d2 - 53)).
    { replace (d2 - 1) with (52 + (d2 - 53)) by lia. rewrite Z.pow_add_r by lia. nia. }
    assert (2 ^ d1 <= 2 ^ (d2 - 1)) by (apply Z.pow_le_mono_r; lia).
    lia.
  - destruct (Z.eq_dec d1 d2) as [Heq|Hne].
    + rewrite <- Heq.
      assert (Hp : 0 < 2 ^ (d1 - 53)) by (apply Z.pow_pos_nonneg; lia).
      pose proof (nearestEven_mono (Zpos D1) (Zpos D2) (d1 - 53) ltac:(lia) ltac:(lia)).
      nia.
    + pose proof (nearestEven_bounds D1 (d1 - 53) ltac:(lia) ltac:(fold d1; lia)) as [_ Hb1].
      pose proof (nearestEven_bounds D2 (d2 - 53) ltac:(lia) ltac:(fold d2; lia)) as [Hb2 _].
      assert (Hp1 : 0 < 2 ^ (d1 - 53)) by (apply Z.pow_pos_nonneg; lia).
      assert (Hp2 : 0 < 2 ^ (d2 - 53)) by (apply Z.pow_pos_nonneg; lia).
      assert (Hup : Spec.nearestEven (Zpos D1) (d1 - 53) * 2 ^ (d1 - 53) <= 2 ^ d1).
      { replace d1 with (53 + (d1 - 53)) at 3 by lia. rewrite Z.pow_add_r by lia. nia. }
      assert (Hlow : 2 ^ (d2 - 1) <= Spec.nearestEven (Zpos D2) (d2 - 53) * 2 ^ (d2 - 53)).
      { replace (d2 - 1) with (52 + (d2 - 53)) by lia. rewrite Z.pow_add_r by lia. nia. }
      assert (2 ^ d1 <= 2 ^ (d2 - 1)) by (apply Z.pow_le_mono_r; lia).
      lia.
Qed.

(** What [roundScaled] gives: a float64 in canonical form whose value
    is the rounded integer, or infinity beyond the largest exponent. *)
Lemma roundScaled_spec (D : positive) :
  exists m e,
    canonical_mantissa prec emax m e = true /\
    Zpos m * 2 ^ (e + 1074) = Spec.rounded D /\
    Spec.roundScaled D
    = if e <=? emax - prec then S754_finite false m e else S754_infinity false.
Proof.
  pose proof (digits2_pos_bounds D) as [Hlo Hhi].
  unfold Spec.roundScaled, Spec.rounded.
  set (d := Zpos (digits2_pos D)) in *.
  assert (Hd : 0 < d) by (subst d; lia).
  destruct (Z.leb_spec d 53) as [H|H].
  - exists D, (-1074). split; [|split; [change (-1074 + 1074) with 0; lia|reflexivity]].
    unfold canonical_mantissa, fexp, emin, prec, emax. apply Z.eqb_eq. fold d.
    change (3 - 1024 - 53) with (-1074). lia.
  - pose proof (nearestEven_bounds D (d - 53) ltac:(lia) ltac:(fold d; lia)) as Hb.
    set (m2 := Spec.nearestEven (Zpos D) (d - 53)) in *.
    assert (Hp : 0 < 2 ^ (d - 53)) by (apply Z.pow_pos_nonneg; lia).
    destruct (Z.eqb_spec m2 (2 ^ 53)) as [Hc|Hc].
    + exists (Z.to_pos (2 ^ 52)), (d - 53 + 1 - 1074). split; [|split].
      * unfold canonical_mantissa, fexp, emin, prec, emax. apply Z.eqb_eq.
        change (Zpos (digits2_pos (Z.to_pos (2 ^ 52)))) with 53.
        change (3 - 1024 - 53) with (-1074). lia.
      * rewrite Hc. rewrite Z2Pos.id by reflexivity.
        replace (d - 53 + 1 - 1074 + 1074) with (1 + (d - 53)) by lia.
        rewrite Z.pow_add_r by lia. change (2 ^ 53) with (2 ^ 52 * 2 ^ 1). lia.
      * reflexivity.
    + assert (Hm2 : 2 ^ 52 <= m2 < 2 ^ 53) by lia.
      exists (Z.to_pos m2), (d - 53 - 1074). split; [|split].
      * unfold canonical_mantissa, fexp, emin, prec, emax. apply Z.eqb_eq.
        rewrite (digits_unique (Z.to_pos m2) 53) by (rewrite Z2Pos.id by lia; exact Hm2).
        change (3 - 1024 - 53) with (-1074). lia.
      * rewrite Z2Pos.id by lia. f_equal. f_equal. lia.
      * reflexivity.
Qed.

End RoundingOrder.

Module RoundingShape.

Import F64Facts F64Arith DurationProps RoundingFacts RoundingScaled RoundingOrder.

Lemma shr_iter_m (q : Z) (r0 s0 : bool) (n : positive) :
  0 <= q ->
  shr_m (Pos.iter shr_1 (Build_shr_record q r0 s0) n) = q / 2 ^ Zpos n.
Proof.
  intros Hq. revert r0 s0. induction n as [|n IH] using Pos.peano_ind; intros r0 s0.
  - cbn [Pos.iter]. rewrite shr_1_nonneg by exact Hq. reflexivity.
  - rewrite Pos.iter_succ.
    destruct (Pos.iter shr_1 (Build_shr_record q r0 s0) n) as [m r s] eqn:Hit.
    pose proof (IH r0 s0) as Hm. rewrite Hit in Hm. cbn [shr_m] in Hm. subst m.
    assert (Hp : 0 < 2 ^ Zpos n) by (apply Z.pow_pos_nonneg; lia).
    rewrite shr_1_nonneg by (apply Z.div_pos; lia). cbn [shr_m].
    rewrite Z.div_div by lia.
    rewrite Pos2Z.inj_succ, Z.pow_succ_r by lia. f_equal. lia.
Qed.

Lemma round_cases (m : Z) (l : location) :
  round_nearest_even m l = m \/ (round_nearest_even m l = m + 1 /\ l <> loc_Exact).
Proof.
  destruct l as [|[| |]]; cbn [round_nearest_even].
  - left. reflexivity.
  - destruct (Z.even m); [left; reflexivity|right; split; [reflexivity|discriminate]].
  - left. reflexivity.
  - right. split; [reflexivity|discriminate].
Qed.

(** The first half of [binary_round_aux]: the mantissa is shifted to
    its exponent and rounded up by one at most, and only when something
    was lost. *)
Lemma first_round (q E : Z) (l : location) (n : Z) :
  0 <= q ->
  n = fexp prec emax (Zdigits2 q + E) - E ->
  0 <= n ->
  exists m2,
    (let '(mrs', e') := shr_fexp prec emax q E l in
     (round_nearest_even (shr_m mrs') (loc_of_shr_record mrs'), e')) = (m2, E + n) /\
    (m2 = q / 2 ^ n \/
     (m2 = q / 2 ^ n + 1 /\ (l <> loc_Exact \/ q mod 2 ^ n <> 0))).
Proof.
  intros Hq Hn Hn0. unfold shr_fexp, shr. rewrite <- Hn.
  destruct n as [|p|p]; [| |lia].
  - rewrite Z.add_0_r. change (2 ^ 0) with 1. rewrite Z.div_1_r.
    eexists. split; [reflexivity|].
    destruct l as [|[| |]]; cbn [shr_record_of_loc shr_m loc_of_shr_record].
    + left. reflexivity.
    + destruct (round_cases q (loc_Inexact Eq)) as [H|[H _]]; rewrite H;
        [left; reflexivity|right; split; [reflexivity|left; discriminate]].
    + left. reflexivity.
    + right. split; [reflexivity|left; discriminate].
  - rewrite iter_pos_iter.
    eexists. split; [reflexivity|].
    destruct (Pos.iter shr_1 (shr_record_of_loc q l) p) as [m r s] eqn:Hit.
    assert (Hm : m = q / 2 ^ Zpos p).
    { assert (H : shr_m (Pos.iter shr_1 (shr_record_of_loc q l) p) = q / 2 ^ Zpos p)
        by (destruct l as [|[| |]]; apply shr_iter_m; exact Hq).
      rewrite Hit in H. exact H. }
    subst m. cbn [shr_m].
    destruct (round_cases (q / 2 ^ Zpos p)
                (loc_of_shr_record (Build_shr_record (q / 2 ^ Zpos p) r s))) as [H|[H Hne]];
      rewrite H; [left; reflexivity|right; split; [reflexivity|]].
    destruct l as [|c]; [right|left; discriminate].
    cbn [shr_record_of_loc] in Hit.
    destruct (shr_iter q p Hq) as (r' & s' & Heq & Hex).
    rewrite Heq in Hit. injection Hit as <- <-.
    intros Hz. destruct (Hex Hz) as [-> ->]. apply Hne. reflexivity.
Qed.

(** [binary_round_aux] as a whole, for a mantissa that is not too
    short for its exponent: the result is in canonical form and stands
    for the rounded mantissa at the exponent of the format. *)
Lemma binary_round_aux_shape (s : bool) (q E : Z) (l : location) (n : Z) :
  0 <= q ->
  n = fexp prec emax (Zdigits2 q + E) - E ->
  0 <= n ->
  exists m2,
    (m2 = q / 2 ^ n \/
     (m2 = q / 2 ^ n + 1 /\ (l <> loc_Exact \/ q mod 2 ^ n <> 0))) /\
    ((m2 = 0 /\ binary_round_aux prec emax s q E l = S754_zero s) \/
     (exists m e,
        canonical_mantissa prec emax m e = true /\
        E + n <= e /\
        Zpos m * 2 ^ (e - (E + n)) = m2 /\
        binary_round_aux prec emax s q E l
        = if e <=? emax - prec then S754_finite s m e else S754_infinity s)).
Proof.
  intros Hq Hn Hn0.
  destruct (first_round q E l n Hq Hn Hn0) as (m2 & Hfirst & Hm2).
  exists m2. split; [exact Hm2|].
  assert (Hp : 0 < 2 ^ n) by (apply Z.pow_pos_nonneg; lia).
  set (e1 := E + n) in *.
  assert (He1 : e1 = Z.max (Zdigits2 q + E - 53) (-1074)).
  { subst e1. rewrite Hn. unfold fexp, emin, prec, emax.
    change (3 - 1024 - 53) with (-1074). lia. }
  assert (Hm1 : 0 <= q / 2 ^ n < 2 ^ 53 /\ (-1074 < e1 -> 2 ^ 52 <= q / 2 ^ n)).
  { destruct q as [|p|p]; [| |lia].
    - rewrite Z.div_0_l by lia. cbn [Zdigits2] in He1. split; [lia|]. lia.
    - cbn [Zdigits2] in He1. pose proof (digits2_pos_bounds p) as [Hlo Hhi].
      set (d := Zpos (digits2_pos p)) in *.
      split; [split; [apply Z.div_pos; lia|]|].
      + apply Z.div_lt_upper_bound; [lia|].
        assert (2 ^ d <= 2 ^ (n + 53)) by (apply Z.pow_le_mono_r; lia).
        rewrite Z.pow_add_r in * by lia. lia.
      + intros Hnorm. assert (Hnd : n = d - 53) by lia.
        apply Z.div_le_lower_bound; [lia|].
        replace (d - 1) with (n + 52) in Hlo by lia.
        rewrite Z.pow_add_r in Hlo by lia. lia. }
  destruct Hm1 as [Hm1 Hnorm].
  assert (Hm2b : 0 <= m2 <= 2 ^ 53) by (destruct Hm2 as [->|[-> _]]; lia).
  assert (Hm2n : -1074 < e1 -> 2 ^ 52 <= m2) by (intros H; specialize (Hnorm H); destruct Hm2 as [->|[-> _]]; lia).
  unfold binary_round_aux.
  destruct (shr_fexp prec emax q E l) as [mrs' e'].
  injection Hfirst as -> ->.
  destruct m2 as [|p2|p2] eqn:Hm2eq; [| |lia].
  - left. split; [reflexivity|].
    unfold shr_fexp, shr_record_of_loc, shr, fexp, emin, prec, emax. cbn [Zdigits2].
    change (3 - 1024 - 53) with (-1074).
    destruct (Z.max (0 + e1 - 53) (-1074) - e1) as [|p|p] eqn:Hx; try lia; reflexivity.
  - right.
    destruct (Z.eq_dec (Zpos p2) (2 ^ 53)) as [Hc|Hc].
    + (* the carry *)
      exists (Z.to_pos (2 ^ 52)), (e1 + 1).
      split; [|split; [lia|split]].
      * unfold canonical_mantissa, fexp, emin, prec, emax. apply Z.eqb_eq.
        change (Zpos (digits2_pos (Z.to_pos (2 ^ 52)))) with 53.
        change (3 - 1024 - 53) with (-1074). lia.
      * rewrite Z2Pos.id by reflexivity. replace (e1 + 1 - e1) with 1 by lia.
        rewrite Hc. reflexivity.
      * rewrite Hc.
        unfold shr_fexp, shr_record_of_loc, shr, fexp, emin, prec, emax.
        assert (Hd54 : Zdigits2 (2 ^ 53) = 54) by reflexivity. rewrite Hd54.
        change (3 - 1024 - 53) with (-1074).
        replace (Z.max (54 + e1 - 53) (-1074) - e1) with 1 by lia.
        cbn [iter_pos]. rewrite shr_1_nonneg by lia. cbn [shr_m].
        change (2 ^ 53 / 2) with (2 ^ 52).
        destruct (2 ^ 52) as [|q52|q52] eqn:Hq52; try discriminate.
        reflexivity.
    + exists p2, e1.
      pose proof (digits2_pos_bounds p2) as [Hlo2 Hhi2].
      set (d2 := Zpos (digits2_pos p2)) in *.
      assert (Hd2 : 0 < d2 <= 53).
      { split; [subst d2; lia|].
        assert (H : 2 ^ (d2 - 1) < 2 ^ 53) by lia.
        apply Z.pow_lt_mono_r_iff in H; lia. }
      assert (Hd2n : -1074 < e1 -> d2 = 53).
      { intros H. specialize (Hm2n H).
        assert (H' : 2 ^ 52 < 2 ^ d2) by lia.
        apply Z.pow_lt_mono_r_iff in H'; lia. }
      assert (Hcan : Z.max (d2 + e1 - 53) (-1074) = e1).
      { destruct (Z.eq_dec e1 (-1074)) as [->|Hne]; [lia|]. rewrite Hd2n by lia. lia. }
      split; [|split; [lia|split]].
      * unfold canonical_mantissa, fexp, emin, prec, emax. apply Z.eqb_eq. fold d2.
        change (3 - 1024 - 53) with (-1074). exact Hcan.
      * rewrite Z.sub_diag. change (2 ^ 0) with 1. lia.
      * unfold shr_fexp, shr_record_of_loc, shr, fexp, emin, prec, emax.
        cbn [Zdigits2]. fold d2. change (3 - 1024 - 53) with (-1074).
        rewrite Hcan, Z.sub_diag. cbn [shr_m]. reflexivity.
Qed.

End RoundingShape.

Module DivisionBound.

Import F64Facts F64Arith DurationProps RoundingFacts RoundingScaled RoundingOrder RoundingShape.

(** A float64 in canonical form whose value is at most 1 compares
    at most equal to 1.0. *)
Lemma le_one (m : positive) (e : Z) :
  canonical_mantissa prec emax m e = true ->
  e <= 0 -> Zpos m <= 2 ^ (- e) ->
  leb (S754_finite false m e) one = true.
Proof.
  intros Hc He Hm.
  destruct (canonical_facts m e Hc) as (Hemin & Hd & Hnorm).
  pose proof (digits2_pos_bounds m) as [Hlo _].
  unfold leb, SFleb, one. cbn [SFcompare].
  assert (Hc52 : Zpos 4503599627370496 = 2 ^ 52) by reflexivity.
  revert Hc52. generalize 4503599627370496%positive. intros c Hc52.
  destruct (Z.compare_spec e (-52)) as [He52|He52|He52].
  - subst e. change (Pos.compare_cont Eq m c) with (Pos.compare m c).
    change (- -52) with 52 in Hm.
    destruct (Pos.compare_spec m c) as [H|H|H]; try reflexivity. lia.
  - reflexivity.
  - exfalso. rewrite Hnorm in Hlo by lia. change (53 - 1) with 52 in Hlo.
    assert (2 ^ (- e) < 2 ^ 52) by (apply Z.pow_lt_mono_r; lia). lia.
Qed.

Lemma new_location_exact (nb r : Z) : new_location nb r = loc_Exact -> r = 0.
Proof.
  unfold new_location, new_location_even, new_location_odd.
  destruct (Z.even nb); destruct (Z.eqb_spec r 0) as [H|H]; try (intros; exact H);
    discriminate.
Qed.

(** A quotient of two positive float64 numbers, the first not above
    the second, lies in [0,1]. *)
Lemma div_valid_le_one (ma mb : positive) (ea eb : Z) :
  canonical_mantissa prec emax ma ea = true ->
  canonical_mantissa prec emax mb eb = true ->
  Zpos ma * 2 ^ (ea + 1074) <= Zpos mb * 2 ^ (eb + 1074) ->
  valid_binary prec emax (div (S754_finite false ma ea) (S754_finite false mb eb)) = true /\
  Spec.in01 (div (S754_finite false ma ea) (S754_finite false mb eb)) = true.
Proof.
  intros Ha Hb Hle.
  destruct (canonical_facts ma ea Ha) as (Hea & Hda & _).
  destruct (canonical_facts mb eb Hb) as (Heb & Hdb & _).
  pose proof (digits2_pos_bounds ma) as [Hloa Hhia].
  pose proof (digits2_pos_bounds mb) as [Hlob Hhib].
  set (d1 := Zpos (digits2_pos ma)) in *. set (d2 := Zpos (digits2_pos mb)) in *.
  assert (Hd1 : 0 < d1) by (subst d1; lia). assert (Hd2 : 0 < d2) by (subst d2; lia).
  assert (Hpa : 0 < 2 ^ (ea + 1074)) by (apply Z.pow_pos_nonneg; lia).
  assert (Hpb : 0 < 2 ^ (eb + 1074)) by (apply Z.pow_pos_nonneg; lia).
  (* the exponents of the two numbers *)
  assert (Hx : d1 + ea - (d2 + eb) <= 0).
  { assert (H : 2 ^ (d1 - 1 + (ea + 1074)) < 2 ^ (d2 + (eb + 1074))).
    { rewrite (Z.pow_add_r 2 (d1 - 1) (ea + 1074)), (Z.pow_add_r 2 d2 (eb + 1074)) by lia.
      assert (2 ^ (d1 - 1) * 2 ^ (ea + 1074) <= Zpos ma * 2 ^ (ea + 1074))
        by (apply Z.mul_le_mono_nonneg_r; lia).
      assert (Zpos mb * 2 ^ (eb + 1074) < 2 ^ d2 * 2 ^ (eb + 1074))
        by (apply Z.mul_lt_mono_pos_r; lia).
      lia. }
    apply Z.pow_lt_mono_r_iff in H; lia. }
  unfold div, SFdiv, SFdiv_core_binary. cbn [Zdigits2 xorb]. fold d1 d2.
  set (f := fexp prec emax (d1 + ea - (d2 + eb))).
  assert (Hf : f = Z.max (d1 + ea - (d2 + eb) - 53) (-1074)) by reflexivity.
  set (e' := Z.min f (ea - eb)).
  set (s := ea - eb - e').
  assert (Hs : 0 <= s) by (subst s e'; lia).
  assert (He' : e' <= -53) by (subst e'; lia).
  set (m' := match s with 0 => Zpos ma | Zpos _ => Z.shiftl (Zpos ma) s | Zneg _ => 0 end).
  assert (Hm' : m' = Zpos ma * 2 ^ s).
  { subst m'. destruct s as [|p|p] eqn:Hsp; [change (2 ^ 0) with 1; lia| |lia].
    apply Z.shiftl_mul_pow2. lia. }
  clearbody m'.
  assert (Hps : 0 < 2 ^ s) by (apply Z.pow_pos_nonneg; lia).
  set (T := 2 ^ (- e')).
  assert (HT : 0 < T) by (apply Z.pow_pos_nonneg; lia).
  assert (Hbound : m' <= Zpos mb * T).
  { assert (H : m' * 2 ^ (eb + 1074) <= Zpos mb * T * 2 ^ (eb + 1074)).
    { rewrite Hm'. subst T.
      replace (Zpos mb * 2 ^ (- e') * 2 ^ (eb + 1074))
        with (Zpos mb * 2 ^ (eb + 1074) * 2 ^ (- e')) by lia.
      replace (Zpos ma * 2 ^ s * 2 ^ (eb + 1074))
        with (Zpos ma * 2 ^ (ea + 1074) * 2 ^ (- e')).
      - apply Z.mul_le_mono_nonneg_r; lia.
      - rewrite <- !Z.mul_assoc. f_equal. rewrite <- !Z.pow_add_r by lia.
        f_equal. subst s. lia. }
    apply Z.mul_le_mono_pos_r in H; lia. }
  pose proof (Z_div_mod m' (Zpos mb) ltac:(lia)) as Hdm.
  destruct (Z.div_eucl m' (Zpos mb)) as [q r]. destruct Hdm as [Hdm Hr].
  cbv beta iota.
  assert (Hq0 : 0 <= q) by nia.
  assert (HqT : q <= T) by nia.
  assert (HqT' : r <> 0 -> q < T) by (intros; nia).
  (* the quotient is not too short *)
  set (n := fexp prec emax (Zdigits2 q + e') - e').
  assert (Hn : 0 <= n).
  { subst n. unfold fexp, emin, prec, emax. change (3 - 1024 - 53) with (-1074).
    destruct (Z.eq_dec f (-1074)) as [Hf'|Hf']; [subst e'; lia|].
    assert (Hfx : f = d1 + ea - (d2 + eb) - 53) by lia.
    assert (He'f : e' = f) by (subst e'; lia).
    assert (Hs53 : s = 53 - d1 + d2) by (subst s; lia).
    assert (Hq52 : 2 ^ 52 <= q).
    { assert (Hm'lo : 2 ^ 52 * 2 ^ d2 <= m').
      { rewrite Hm', Hs53.
        replace (53 - d1 + d2) with ((53 - d1) + d2) by lia.
        rewrite Z.pow_add_r by lia.
        assert (2 ^ 52 <= Zpos ma * 2 ^ (53 - d1)).
        { replace 52 with ((d1 - 1) + (53 - d1)) at 1 by lia.
          rewrite Z.pow_add_r by lia.
          apply Z.mul_le_mono_nonneg_r; [apply Z.pow_nonneg; lia|lia]. }
        assert (0 < 2 ^ d2) by (apply Z.pow_pos_nonneg; lia). nia. }
      destruct (Z_lt_le_dec q (2 ^ 52)) as [Hlt|Hge]; [exfalso|exact Hge].
      assert (q + 1 <= 2 ^ 52) by lia.
      assert (m' < Zpos mb * (q + 1)) by nia.
      assert (Zpos mb * (q + 1) <= Zpos mb * 2 ^ 52) by (apply Z.mul_le_mono_nonneg_l; lia).
      assert (Zpos mb * 2 ^ 52 < 2 ^ d2 * 2 ^ 52) by (apply Z.mul_lt_mono_pos_r; lia).
      lia. }
    destruct q as [|pq|pq]; [lia| |lia].
    cbn [Zdigits2]. pose proof (digits2_pos_bounds pq) as [_ Hhiq].
    assert (H : 2 ^ 52 < 2 ^ Zpos (digits2_pos pq)) by lia.
    apply Z.pow_lt_mono_r_iff in H; lia. }
  destruct (binary_round_aux_shape false q e' (new_location (Zpos mb) r) n Hq0 eq_refl Hn)
    as (m2 & Hm2 & Hres).
  set (e1 := e' + n) in *.
  assert (Hpn : 0 < 2 ^ n) by (apply Z.pow_pos_nonneg; lia).
  assert (He1 : e1 <= 0).
  { subst e1 n. unfold fexp, emin, prec, emax. change (3 - 1024 - 53) with (-1074).
    destruct q as [|pq|pq]; [cbn [Zdigits2]; lia| |lia].
    cbn [Zdigits2]. pose proof (digits2_pos_bounds pq) as [Hloq _].
    assert (H : 2 ^ (Zpos (digits2_pos pq) - 1) < 2 ^ (- e' + 1)).
    { rewrite (Z.pow_add_r 2 (- e') 1) by lia. change (2 ^ 1) with 2. fold T. lia. }
    apply Z.pow_lt_mono_r_iff in H; lia. }
  assert (HTn : T = 2 ^ (- e1) * 2 ^ n).
  { subst T. rewrite <- Z.pow_add_r by lia. f_equal. subst e1. lia. }
  assert (Hp1 : 0 < 2 ^ (- e1)) by (apply Z.pow_pos_nonneg; lia).
  assert (Hm2le : 0 <= m2 <= 2 ^ (- e1)).
  { assert (Hm1 : 0 <= q / 2 ^ n <= 2 ^ (- e1)).
    { split; [apply Z.div_pos; lia|]. apply Z.div_le_upper_bound; [lia|]. lia. }
    destruct Hm2 as [->|[-> Hinex]]; [exact Hm1|].
    split; [lia|].
    assert (Hlt : q < T).
    { destruct Hinex as [Hl|Hmod].
      - apply HqT'. intros Hr0. apply Hl. subst r.
        unfold new_location, new_location_even, new_location_odd.
        destruct (Z.even (Zpos mb)); reflexivity.
      - destruct (Z.eq_dec q T) as [HeqT|]; [|lia].
        exfalso. apply Hmod. rewrite HeqT, HTn. apply Z.mod_mul. lia. }
    assert (q / 2 ^ n < 2 ^ (- e1)) by (apply Z.div_lt_upper_bound; lia).
    lia. }
  destruct Hres as [[_ ->]|(m & e & Hcan & Hee & Hval & ->)]; [split; reflexivity|].
  assert (He0 : e <= 0).
  { assert (H : 2 ^ (e - e1) <= 2 ^ (- e1)).
    { assert (0 < 2 ^ (e - e1)) by (apply Z.pow_pos_nonneg; lia). nia. }
    apply Z.pow_le_mono_r_iff in H; lia. }
  assert (Hme : Zpos m <= 2 ^ (- e)).
  { assert (Hpe : 0 < 2 ^ (e - e1)) by (apply Z.pow_pos_nonneg; lia).
    assert (H : Zpos m * 2 ^ (e - e1) <= 2 ^ (- e) * 2 ^ (e - e1)).
    { rewrite <- Z.pow_add_r by lia. replace (- e + (e - e1)) with (- e1) by lia. lia. }
    apply Z.mul_le_mono_pos_r in H; lia. }
  replace (e <=? emax - prec) with true
    by (symmetry; apply Z.leb_le; unfold emax, prec; lia).
  split.
  - cbn [valid_binary]. unfold bounded. rewrite Hcan.
    apply andb_true_iff. split; [reflexivity|]. apply Z.leb_le. unfold emax, prec. lia.
  - unfold Spec.in01. rewrite (le_one m e Hcan He0 Hme). reflexivity.
Qed.

Lemma div_le_one (ma mb : positive) (ea eb : Z) :
  canonical_mantissa prec emax ma ea = true ->
  canonical_mantissa prec emax mb eb = true ->
  Zpos ma * 2 ^ (ea + 1074) <= Zpos mb * 2 ^ (eb + 1074) ->
  Spec.in01 (div (S754_finite false ma ea) (S754_finite false mb eb)) = true.
Proof. intros Ha Hb Hle. exact (proj2 (div_valid_le_one ma mb ea eb Ha Hb Hle)). Qed.

End DivisionBound.

Module SubtractionFacts.

Import F64Facts F64Arith DurationProps RoundingFacts RoundingScaled RoundingOrder.

Lemma valid_finite (s : bool) (m : positive) (e : Z) :
  valid_binary prec emax (S754_finite s m e) = true ->
  canonical_mantissa prec emax m e = true /\ e <= 971 /\ -1074 <= e.
Proof.
  cbn [valid_binary]. unfold bounded. intros H. apply andb_true_iff in H.
  destruct H as [Hc He]. apply Z.leb_le in He. unfold emax, prec in He.
  destruct (canonical_facts m e Hc) as (Hmin & _). repeat split; [exact Hc|lia|lia].
Qed.

(** The order of Go's comparison is the order of the values. *)
Lemma ltb_scaled (x y : float64) :
  valid_binary prec emax x = true -> valid_binary prec emax y = true ->
  Spec.is_finite x = true -> Spec.is_finite y = true ->
  ltb x y = true -> Spec.scaled x < Spec.scaled y.
Proof.
  intros Hvx Hvy Hfx Hfy.
  destruct x as [sx|sx| |sx mx ex], y as [sy|sy| |sy my ey]; try discriminate;
    unfold ltb, SFltb; cbn [SFcompare Spec.scaled]; intros Hlt.
  - destruct (valid_finite _ _ _ Hvy) as (_ & _ & Hey).
    assert (0 < Zpos my * 2 ^ (ey + 1074)) by (apply Z.mul_pos_pos; [lia|apply Z.pow_pos_nonneg; lia]).
    destruct sy; [discriminate Hlt|]. cbn [cond_Zopp]. lia.
  - destruct (valid_finite _ _ _ Hvx) as (_ & _ & Hex).
    assert (0 < Zpos mx * 2 ^ (ex + 1074)) by (apply Z.mul_pos_pos; [lia|apply Z.pow_pos_nonneg; lia]).
    destruct sx; [|discriminate Hlt]. cbn [cond_Zopp]. lia.
  - destruct (valid_finite _ _ _ Hvx) as (Hcx & _ & Hex).
    destruct (valid_finite _ _ _ Hvy) as (Hcy & _ & Hey).
    assert (Hpx : 0 < Zpos mx * 2 ^ (ex + 1074)) by (apply Z.mul_pos_pos; [lia|apply Z.pow_pos_nonneg; lia]).
    assert (Hpy : 0 < Zpos my * 2 ^ (ey + 1074)) by (apply Z.mul_pos_pos; [lia|apply Z.pow_pos_nonneg; lia]).
    change (Pos.compare_cont Eq mx my) with (Pos.compare mx my) in Hlt.
    destruct sx, sy; cbn [cond_Zopp]; try discriminate Hlt; try lia.
    + destruct (Z.compare_spec ex ey) as [He|He|He]; try discriminate Hlt.
      * subst ey. destruct (Pos.compare_spec mx my) as [Hm|Hm|Hm]; try discriminate Hlt.
        assert (0 < 2 ^ (ex + 1074)) by (apply Z.pow_pos_nonneg; lia). nia.
      * pose proof (canonical_lt my mx ey ex Hcy Hcx He). lia.
    + destruct (Z.compare_spec ex ey) as [He|He|He]; try discriminate Hlt.
      * subst ey. destruct (Pos.compare_spec mx my) as [Hm|Hm|Hm]; try discriminate Hlt.
        assert (0 < 2 ^ (ex + 1074)) by (apply Z.pow_pos_nonneg; lia). nia.
      * exact (canonical_lt mx my ex ey Hcx Hcy He).
Qed.

Lemma shl_align_value (m : positive) (e ez : Z) :
  -1074 <= ez <= e ->
  Zpos (fst (shl_align m e ez)) * 2 ^ (ez + 1074) = Zpos m * 2 ^ (e + 1074).
Proof.
  intros He. unfold shl_align.
  destruct (ez - e) as [|p|p] eqn:Hp; cbn [fst].
  - replace ez with e by lia. reflexivity.
  - lia.
  - rewrite iter_xO_value. replace (e + 1074) with (Zpos p + (ez + 1074)) by lia.
    rewrite (Z.pow_add_r 2 (Zpos p) (ez + 1074)) by lia. ring.
Qed.

Lemma cond_Zopp_mul (s : bool) (a c : Z) : cond_Zopp s a * c = cond_Zopp s (a * c).
Proof. destruct s; cbn [cond_Zopp]; lia. Qed.

(** A difference of two float64 numbers, the first the larger, is the
    float64 nearest to the exact difference. *)
Lemma sub_rounds (x y : float64) :
  valid_binary prec emax x = true -> valid_binary prec emax y = true ->
  Spec.is_finite x = true -> Spec.is_finite y = true ->
  Spec.scaled y < Spec.scaled x ->
  exists D, Zpos D = Spec.scaled x - Spec.scaled y /\ sub x y = Spec.roundScaled D.
Proof.
  intros Hvx Hvy Hfx Hfy Hlt.
  destruct x as [sx|sx| |sx mx ex], y as [sy|sy| |sy my ey]; try discriminate;
    cbn [Spec.scaled] in Hlt.
  - destruct (valid_finite _ _ _ Hvy) as (Hcy & Hey & Hey').
    assert (Hpy : 0 < Zpos my * 2 ^ (ey + 1074)) by (apply Z.mul_pos_pos; [lia|apply Z.pow_pos_nonneg; lia]).
    destruct sy; cbn [cond_Zopp] in Hlt; [|lia].
    exists (Z.to_pos (Zpos my * 2 ^ (ey + 1074))).
    rewrite Z2Pos.id by lia. cbn [Spec.scaled cond_Zopp]. split; [lia|].
    unfold sub. cbn [SFsub negb].
    rewrite (roundScaled_exact my _ ey Hey').
    + replace (ey <=? emax - prec) with true; [reflexivity|].
      symmetry. apply Z.leb_le. unfold emax, prec. lia.
    + destruct (canonical_facts my ey Hcy) as (_ & _ & _).
      unfold canonical_mantissa, fexp, emin, prec, emax in Hcy. apply Z.eqb_eq in Hcy.
      change (3 - 1024 - 53) with (-1074) in Hcy. exact Hcy.
    + rewrite Z2Pos.id by lia. reflexivity.
  - destruct (valid_finite _ _ _ Hvx) as (Hcx & Hex & Hex').
    assert (Hpx : 0 < Zpos mx * 2 ^ (ex + 1074)) by (apply Z.mul_pos_pos; [lia|apply Z.pow_pos_nonneg; lia]).
    destruct sx; cbn [cond_Zopp] in Hlt; [lia|].
    exists (Z.to_pos (Zpos mx * 2 ^ (ex + 1074))).
    rewrite Z2Pos.id by lia. cbn [Spec.scaled cond_Zopp]. split; [lia|].
    unfold sub. cbn [SFsub].
    rewrite (roundScaled_exact mx _ ex Hex').
    + replace (ex <=? emax - prec) with true; [reflexivity|].
      symmetry. apply Z.leb_le. unfold emax, prec. lia.
    + unfold canonical_mantissa, fexp, emin, prec, emax in Hcx. apply Z.eqb_eq in Hcx.
      change (3 - 1024 - 53) with (-1074) in Hcx. exact Hcx.
    + rewrite Z2Pos.id by lia. reflexivity.
  - destruct (valid_finite _ _ _ Hvx) as (Hcx & Hex & Hex').
    destruct (valid_finite _ _ _ Hvy) as (Hcy & Hey & Hey').
    unfold sub. cbn [SFsub].
    set (ez := Z.min ex ey).
    set (S := cond_Zopp sx (Zpos (fst (shl_align mx ex ez)))
              - cond_Zopp sy (Zpos (fst (shl_align my ey ez)))).
    assert (Hpz : 0 < 2 ^ (ez + 1074)) by (apply Z.pow_pos_nonneg; subst ez; lia).
    assert (HS : S * 2 ^ (ez + 1074)
                 = cond_Zopp sx (Zpos mx * 2 ^ (ex + 1074))
                   - cond_Zopp sy (Zpos my * 2 ^ (ey + 1074))).
    { subst S. rewrite Z.mul_sub_distr_r, !cond_Zopp_mul.
      rewrite !shl_align_value by (subst ez; lia). reflexivity. }
    assert (HSpos : 0 < S) by nia.
    destruct S as [|pS|pS] eqn:HSeq; [lia| |lia].
    exists (Z.to_pos (Zpos pS * 2 ^ (ez + 1074))).
    rewrite Z2Pos.id by lia. split; [exact HS|].
    cbn [binary_normalize].
    apply binary_round_scaled; [subst ez; lia|].
    rewrite Z2Pos.id by lia. reflexivity.
Qed.

End SubtractionFacts.

(* ================================================================= *)
(** ** The duty cyclers: range *)

Module DutyCyclerProps.

Import Heatsink F64Facts F64Arith RoundingOrder DivisionBound SubtractionFacts Fixtures.

(** The quotient that both duty cyclers compute between the bounds. *)
Lemma fraction_in_range (minTemp maxTemp t : float64) :
  valid_binary prec emax minTemp = true ->
  valid_binary prec emax maxTemp = true ->
  valid_binary prec emax t = true ->
  Spec.is_finite minTemp = true ->
  Spec.is_finite maxTemp = true ->
  Spec.is_finite (sub maxTemp minTemp) = true ->
  gtb t minTemp = true ->
  ltb t maxTemp = true ->
  valid_binary prec emax (div (sub t minTemp) (sub maxTemp minTemp)) = true /\
  Spec.in01 (div (sub t minTemp) (sub maxTemp minTemp)) = true.
Proof.
  intros Hvmin Hvmax Hvt Hfmin Hfmax Hrange Hlo Hhi.
  assert (Hft : Spec.is_finite t = true).
  { destruct t as [s|s| |s m e]; try reflexivity.
    - destruct s.
      + destruct minTemp as [s'|s'| |s' m' e']; discriminate.
      + destruct maxTemp as [s'|s'| |s' m' e']; discriminate.
    - discriminate. }
  pose proof (ltb_scaled minTemp t Hvmin Hvt Hfmin Hft Hlo) as Hslo.
  pose proof (ltb_scaled t maxTemp Hvt Hvmax Hft Hfmax Hhi) as Hshi.
  destruct (sub_rounds t minTemp Hvt Hvmin Hft Hfmin Hslo) as (Dt & HDt & Ha).
  destruct (sub_rounds maxTemp minTemp Hvmax Hvmin Hfmax Hfmin ltac:(lia)) as (Db & HDb & Hb).
  rewrite Ha, Hb. rewrite Hb in Hrange.
  destruct (roundScaled_spec Dt) as (ma & ea & Hca & Hva & Hra).
  destruct (roundScaled_spec Db) as (mb & eb & Hcb & Hvb & Hrb).
  rewrite Hrb in Hrange.
  destruct (Z.leb_spec eb (emax - prec)) as [Heb|Heb]; [|discriminate].
  pose proof (rounded_mono Dt Db ltac:(lia)) as Hmono.
  rewrite <- Hva, <- Hvb in Hmono.
  pose proof (canonical_exp_mono ma mb ea eb Hca Hcb Hmono) as Hexp.
  rewrite Hra, Hrb.
  replace (ea <=? emax - prec) with true by (symmetry; apply Z.leb_le; lia).
  replace (eb <=? emax - prec) with true by (symmetry; apply Z.leb_le; lia).
  apply div_valid_le_one; assumption.
Qed.

(** X18.  The ratio stays in [0,1].  For bounds that are finite float64
    numbers with [minTemp < maxTemp] and a range [maxTemp - minTemp]
    that does not overflow, and for every temperature that is a float64
    and not NaN (the infinities included), the linear duty cycler
    returns a ratio between 0.0 and 1.0, both included; and so does the
    power one, if [math.Pow] with the exponent pi maps [0,1] into
    [0,1]. *)
Theorem ratio_in_range (Pow : float64 -> float64 -> float64)
    (minTemp maxTemp t : float64) :
  valid_binary prec emax minTemp = true ->
  valid_binary prec emax maxTemp = true ->
  valid_binary prec emax t = true ->
  Spec.is_finite minTemp = true ->
  Spec.is_finite maxTemp = true ->
  Spec.is_finite (sub maxTemp minTemp) = true ->
  is_nan t = false ->
  Spec.in01 (ratio (newDutyCyclerLinear minTemp maxTemp) t) = true /\
  ((forall x, Spec.in01 x = true -> Spec.in01 (Pow x Pi) = true) ->
   Spec.in01 (ratio (dutyCycler := dutyCycler_PowPi Pow)
                    (newDutyCyclerPowPi minTemp maxTemp) t) = true).
Proof.
  intros Hvmin Hvmax Hvt Hfmin Hfmax Hrange Hnan.
  assert (Hmin : is_nan minTemp = false) by (destruct minTemp; try reflexivity; discriminate).
  assert (Hmax : is_nan maxTemp = false) by (destruct maxTemp; try reflexivity; discriminate).
  cbn [ratio dutyCycler_Linear dutyCycler_PowPi newDutyCyclerLinear newDutyCyclerPowPi
       lin_minTemp lin_maxTemp lin_tRange pow_minTemp pow_maxTemp pow_tRange].
  destruct (geb t maxTemp) eqn:Hge; [split; [reflexivity|intros _; reflexivity]|].
  destruct (leb t minTemp) eqn:Hle; [split; [reflexivity|intros _; reflexivity]|].
  assert (Hhi : ltb t maxTemp = true)
    by (destruct (geb_or_ltb t maxTemp Hnan Hmax) as [H|H]; [congruence|exact H]).
  assert (Hlo : gtb t minTemp = true)
    by (destruct (leb_or_gtb t minTemp Hnan Hmin) as [H|H]; [congruence|exact H]).
  destruct (fraction_in_range minTemp maxTemp t Hvmin Hvmax Hvt Hfmin Hfmax Hrange Hlo Hhi)
    as [_ Hfrac].
  split; [exact Hfrac|]. intros HPow. apply HPow. exact Hfrac.
Qed.

(** Between 35 and 45 degrees. *)
Lemma ratio_in_range_witness :
  Spec.in01 (ratio (newDutyCyclerLinear (of_Z 35) (of_Z 45)) (of_dec 417 1)) = true.
Proof.
  apply (proj1 (ratio_in_range cube (of_Z 35) (of_Z 45) (of_dec 417 1)
                  eq_refl eq_refl eq_refl eq_refl eq_refl eq_refl eq_refl)).
Defined.

End DutyCyclerProps.

(* ================================================================= *)
(** ** From the temperature to the pulse *)

Module PulseProps.

Import Heatsink F64Facts F64Arith DurationProps SubtractionFacts DutyCyclerProps Fixtures.

(** The ratio of the linear duty cycler is a float64 in canonical
    form. *)
Lemma linear_ratio_valid (minTemp maxTemp t : float64) :
  valid_binary prec emax minTemp = true ->
  valid_binary prec emax maxTemp = true ->
  valid_binary prec emax t = true ->
  Spec.is_finite minTemp = true ->
  Spec.is_finite maxTemp = true ->
  Spec.is_finite (sub maxTemp minTemp) = true ->
  is_nan t = false ->
  valid_binary prec emax (ratio (newDutyCyclerLinear minTemp maxTemp) t) = true /\
  is_nan (ratio (newDutyCyclerLinear minTemp maxTemp) t) = false.
Proof.
  intros Hvmin Hvmax Hvt Hfmin Hfmax Hrange Hnan.
  assert (Hmin : is_nan minTemp = false) by (destruct minTemp; try reflexivity; discriminate).
  assert (Hmax : is_nan maxTemp = false) by (destruct maxTemp; try reflexivity; discriminate).
  cbn [ratio dutyCycler_Linear newDutyCyclerLinear lin_minTemp lin_maxTemp lin_tRange].
  destruct (geb t maxTemp) eqn:Hge; [split; reflexivity|].
  destruct (leb t minTemp) eqn:Hle; [split; reflexivity|].
  assert (Hhi : ltb t maxTemp = true)
    by (destruct (geb_or_ltb t maxTemp Hnan Hmax) as [H|H]; [congruence|exact H]).
  assert (Hlo : gtb t minTemp = true)
    by (destruct (leb_or_gtb t minTemp Hnan Hmin) as [H|H]; [congruence|exact H]).
  destruct (fraction_in_range minTemp maxTemp t Hvmin Hvmax Hvt Hfmin Hfmax Hrange Hlo Hhi)
    as [Hvalid Hin].
  split; [exact Hvalid|].
  destruct (div (sub t minTemp) (sub maxTemp minTemp)); try reflexivity. discriminate.
Qed.

(** X19.  From the temperature to the pulse.  A fan driver with a period
    below 2^53 ns, fed the ratio that the linear duty cycler gives for a
    temperature, under the conditions above on bounds and temperature:
    the high time of the pulse lies between 0 and the period, the low
    time is the rest of the period, and the conversion from float64
    that the platform defines is never called upon. *)
Theorem temperature_to_pulse (conv : float64 -> Z) (dr : Fanpwm.Driver)
    (minTemp maxTemp t : float64) :
  valid_binary prec emax minTemp = true ->
  valid_binary prec emax maxTemp = true ->
  valid_binary prec emax t = true ->
  Spec.is_finite minTemp = true ->
  Spec.is_finite maxTemp = true ->
  Spec.is_finite (sub maxTemp minTemp) = true ->
  is_nan t = false ->
  0 < Fanpwm.pwmPeriod dr < 2 ^ 53 ->
  exists up,
    0 <= up <= Fanpwm.pwmPeriod dr /\
    Fanpwm.calcDurations conv dr (ratio (newDutyCyclerLinear minTemp maxTemp) t)
    = (Fanpwm.pwmPeriod dr - up, up, (up =? Fanpwm.pwmPeriod dr) || (up =? 0)).
Proof.
  intros Hvmin Hvmax Hvt Hfmin Hfmax Hrange Hnan HP.
  destruct (linear_ratio_valid minTemp maxTemp t Hvmin Hvmax Hvt Hfmin Hfmax Hrange Hnan)
    as [Hvalid Hnum].
  assert (Hin : forall z, 0 <= z <= Fanpwm.pwmPeriod dr -> in_int64 z = true).
  { intros z Hz. unfold in_int64. apply andb_true_iff.
    split; [apply Z.leb_le|apply Z.ltb_lt]; lia. }
  destruct (up_bounds (Fanpwm.pwmPeriod dr)
              (ratio (newDutyCyclerLinear minTemp maxTemp) t) Hvalid Hnum HP)
    as (up & Hup & Hb).
  exists up. split; [exact Hb|].
  unfold Fanpwm.calcDurations, Fanpwm.Duration_of_float64. rewrite Hup, (Hin up Hb).
  rewrite FanpwmFacts.wrap64_small by (apply Hin; lia).
  f_equal. f_equal.
  destruct (Z.eqb_spec (Fanpwm.pwmPeriod dr - up) (Fanpwm.pwmPeriod dr)) as [H1|H1],
           (Z.eqb_spec up 0) as [H2|H2]; try reflexivity; lia.
Qed.

(** 41.7 degrees between 35 and 45, on the default driver. *)
Lemma temperature_to_pulse_witness :
  exists up,
    0 <= up <= 50000000 /\
    Fanpwm.calcDurations amd64 (defaultDriver noFault)
      (ratio (newDutyCyclerLinear (of_Z 35) (of_Z 45)) (of_dec 417 1))
    = (50000000 - up, up, (up =? 50000000) || (up =? 0)).
Proof.
  destruct (temperature_to_pulse amd64 (defaultDriver noFault) (of_Z 35) (of_Z 45)
              (of_dec 417 1) eq_refl eq_refl eq_refl eq_refl eq_refl eq_refl eq_refl)
    as (up & Hb & Hcalc).
  - cbn. lia.
  - exists up. split; [exact Hb|exact Hcalc].
Defined.

End PulseProps.
